(** * The NFS backup-store driver ([nfs/nfs.go]), embedded and verified

    The driver parses a destination URL, derives the remote address and the
    local mount directory, mounts the share (with the caller's options, or
    stepping down through the NFSv4 minor versions) and afterwards maps
    store-relative paths below the mount directory.

    Go strings are byte strings, modelled as [string]; slices of strings as
    [list string]; [url.Values] as a [gmap string (list string)]; the
    [*BackupStoreDriver] receiver as a record threaded through [mount]; the
    mount table and the remote server as an abstract external state that
    every external call reads and updates, together with a log of the calls
    made. *)

From Stdlib Require Import Ascii String ZArith.
From stdpp Require Import gmap strings list.

Local Open Scope Z_scope.
Local Open Scope stdpp_scope.

(** ** Byte-string helpers from the Go standard library *)

Module strings.

(** [strings.HasPrefix(s, prefix)]. *)
Fixpoint HasPrefix (s prefix : string) : bool :=
  match prefix, s with
  | "", _ => true
  | String p prefix', String c s' => bool_decide (c = p) && HasPrefix s' prefix'
  | String _ _, "" => false
  end.

(** [strings.ContainsRune(cutset, c)] on single-byte characters. *)
Fixpoint contains (cutset : string) (c : ascii) : bool :=
  match cutset with
  | "" => false
  | String d cutset' => bool_decide (c = d) || contains cutset' c
  end.

(** [strings.Replace(s, old, new, n)] for a non-empty [old]: the first [n]
    non-overlapping occurrences of [old] are replaced by [new], all of them
    when [n < 0].  [skip] counts the bytes of a matched occurrence that are
    still to be dropped. *)
Fixpoint Replace_go (old new : string) (n : Z) (skip : nat) (s : string) : string :=
  match s with
  | "" => ""
  | String c s' =>
      match skip with
      | S k => Replace_go old new n k s'
      | O =>
          if bool_decide (n ≠ 0) && HasPrefix s old
          then new +:+ Replace_go old new (n - 1) (String.length old - 1) s'
          else String c (Replace_go old new n 0 s')
      end
  end.

Definition Replace (s old new : string) (n : Z) : string :=
  Replace_go old new n 0 s.

(** [strings.TrimRight(s, cutset)]: [s] without its longest suffix made of
    characters of [cutset]. *)
Fixpoint TrimRight (s cutset : string) : string :=
  match s with
  | "" => ""
  | String c s' =>
      let t := TrimRight s' cutset in
      if bool_decide (t = "") && contains cutset c then "" else String c t
  end.

(** [strings.TrimSuffix(s, suffix)] for a one-byte suffix: at most one
    occurrence is removed. *)
Fixpoint TrimSuffix1 (s : string) (c : ascii) : string :=
  match s with
  | "" => ""
  | String d "" => if bool_decide (d = c) then "" else String d ""
  | String d s' => String d (TrimSuffix1 s' c)
  end.

(** [strings.Join(elems, sep)]. *)
Fixpoint Join (elems : list string) (sep : string) : string :=
  match elems with
  | [] => ""
  | [e] => e
  | e :: rest => e +:+ sep +:+ Join rest sep
  end.

(** [strings.Split(s, sep)] for a one-byte separator; the result is never
    empty. *)
Fixpoint Split1 (s : string) (sep : ascii) : list string :=
  match s with
  | "" => [""]
  | String c s' =>
      if bool_decide (c = sep) then "" :: Split1 s' sep
      else match Split1 s' sep with
           | h :: t => String c h :: t
           | [] => [String c ""]
           end
  end.

End strings.

(** ** [path/filepath] on a Unix target *)

Module filepath.

Definition Separator : ascii := "/"%char.

(** State of [Clean]'s output buffer, path element by path element:
    [dotdot] counts the leading [..] elements, which can no longer be
    removed (Go keeps the index behind them), [elems] holds the elements
    written after them, last one first. *)
Record lazybuf := { dotdot : nat; elems : list string }.

Definition step (rooted : bool) (out : lazybuf) (elem : string) : lazybuf :=
  if bool_decide (elem = "") then out                     (* empty path element *)
  else if bool_decide (elem = ".") then out               (* . element *)
  else if bool_decide (elem = "..") then                  (* .. element *)
    match elems out with
    | _ :: rest => {| dotdot := dotdot out; elems := rest |}   (* can backtrack *)
    | [] =>
        if rooted then out                                (* stays at the root *)
        else {| dotdot := S (dotdot out); elems := [] |}  (* append .. element *)
    end
  else {| dotdot := dotdot out; elems := elem :: elems out |}. (* real path element *)

(** The empty buffer. *)
Definition start : lazybuf := {| dotdot := 0; elems := [] |}.

(** The elements in the buffer, first one first. *)
Definition written (out : lazybuf) : list string :=
  replicate (dotdot out) ".." ++ reverse (elems out).

Definition render (rooted : bool) (out : lazybuf) : string :=
  let body := strings.Join (written out) "/" in
  if rooted then "/" +:+ body
  else if bool_decide (body = "") then "." else body.

Definition IsRooted (path : string) : bool :=
  match path with
  | String c _ => bool_decide (c = Separator)
  | "" => false
  end.

(** [filepath.Clean(path)]: multiple separators count as one, [.] elements
    are dropped, an inner [..] is dropped with the element before it, [..]
    at the root is dropped, and the empty result is [.]. *)
Definition Clean (path : string) : string :=
  if bool_decide (path = "") then "."
  else
    let rooted := IsRooted path in
    render rooted (fold_left (step rooted) (strings.Split1 path Separator) start).

(** [filepath.Join(elem...)]: leading empty elements are skipped, the rest
    is joined with the separator and cleaned; all empty gives [""]. *)
Fixpoint Join (elem : list string) : string :=
  match elem with
  | [] => ""
  | e :: rest =>
      if bool_decide (e = "") then Join rest
      else Clean (strings.Join elem (String Separator ""))
  end.

(** A real path element: not empty, not [.] or [..], and free of the
    separator. *)
Definition real (elem : string) : Prop :=
  elem ≠ "" ∧ elem ≠ "." ∧ elem ≠ ".." ∧ strings.contains elem Separator = false.

(** The buffer states [Clean] can reach: real elements only, and no leading
    [..] in a rooted path. *)
Definition reachable (rooted : bool) (out : lazybuf) : Prop :=
  Forall real (elems out) ∧ (rooted = true → dotdot out = 0%nat).

(** [p] is [dir] itself or lies below it. *)
Definition Within (dir p : string) : Prop :=
  p = dir ∨ strings.HasPrefix p (dir +:+ "/") = true.

End filepath.

(** ** Errors ([error] values built with [github.com/pkg/errors]) *)

Inductive error :=
  | errors_New (msg : string)                       (* errors.New, fmt.Errorf without %w *)
  | errors_Wrapf (cause : error) (msg : string).    (* errors.Wrapf(cause, format, args...) *)

(** [err.Error()]: the outermost message first, then the cause. *)
Fixpoint Error (err : error) : string :=
  match err with
  | errors_New msg => msg
  | errors_Wrapf cause msg => msg +:+ ": " +:+ Error cause
  end.

(** The messages added by wrapping, outermost first: the order in which
    [Error] prints them and [errors.Unwrap] walks them. *)
Fixpoint wrapped (err : error) : list string :=
  match err with
  | errors_New _ => []
  | errors_Wrapf cause msg => msg :: wrapped cause
  end.

Fixpoint Cause (err : error) : error :=
  match err with
  | errors_New msg => errors_New msg
  | errors_Wrapf cause _ => Cause cause
  end.

(** [fmt.Sprintf("%v", xs)] for a slice of strings. *)
Definition fmt_v (xs : list string) : string :=
  "[" +:+ strings.Join xs " " +:+ "]".

(** ** The driver *)

Module nfs.

Definition MinorVersions : list string := ["4.2"; "4.1"; "4.0"].

Definition Second : Z := 1000000000.
Definition defaultMountInterval : Z := 1 * Second.
Definition defaultMountTimeout : Z := 5 * Second.

Definition KIND : string := "nfs".

Record BackupStoreDriver := {
  destURL : string;
  serverPath : string;
  mountDir : string;
  mountOptions : list string
}.

Definition set_mountOptions (b : BackupStoreDriver) (opts : list string) :=
  {| destURL := destURL b; serverPath := serverPath b;
     mountDir := mountDir b; mountOptions := opts |}.

(** The fields of [url.URL] the driver reads. *)
Record URL := { Scheme : string; Host : string; Path : string; RawQuery : string }.

(** Calls that leave the package, as logged in the world. *)
Inductive Call :=
  | CallEnsureMountPoint (kind mountPoint : string)
  | CallMountWithTimeout (source target fstype : string)
      (options sensitiveOptions : list string) (interval timeout : Z)
  | CallList (path : string).

Definition isMountAttempt (c : Call) : bool :=
  match c with CallMountWithTimeout _ _ _ _ _ _ _ => true | _ => false end.

(** What the driver imports: URL parsing from [net/url], the mount
    helpers and the mount root from the [util] package, and directory
    listing from [fsops].  [W] is the state of the machine outside the
    process (mount table, remote server). *)
Class Imports (W : Type) := {
  url_Parse : string → error + URL;
  URL_Query : URL → gmap string (list string);
  util_MountDir : string;
  util_SplitMountOptions : list string → list string;
  util_EnsureMountPoint : string → string → W → (bool * option error) * W;
  util_MountWithTimeout :
    string → string → string → list string → list string → Z → Z →
    W → option error * W;
  fsops_List : (string → string) → string → W → (list string * option error) * W
}.

Section driver.
Context {W : Type} `{!Imports W}.

Record World := { ext : W; calls : list Call }.

Definition M (A : Type) : Type := World → A * World.

#[local] Instance M_ret : MRet M := λ A (a : A) w, (a, w).
#[local] Instance M_bind : MBind M := λ A B (f : A → M B) (m : M A) w,
  let (a, w') := m w in f a w'.

Definition external {A} (c : Call) (f : W → A * W) : M A := λ w,
  let (a, x) := f (ext w) in (a, {| ext := x; calls := calls w ++ [c] |}).

Definition EnsureMountPoint (kind mountPoint : string) : M (bool * option error) :=
  external (CallEnsureMountPoint kind mountPoint)
    (util_EnsureMountPoint kind mountPoint).

Definition MountWithTimeout (source target fstype : string)
    (options sensitiveOptions : list string) (interval timeout : Z) : M (option error) :=
  external
    (CallMountWithTimeout source target fstype options sensitiveOptions interval timeout)
    (util_MountWithTimeout source target fstype options sensitiveOptions interval timeout).

(** [b.List(path)] of the embedded [*fsops.FileSystemOperator], which was
    created from the driver and reaches it through its [LocalPath]. *)
Definition List (localPath : string → string) (path : string)
    : M (list string * option error) :=
  external (CallList path) (fsops_List localPath path).

(** The option list chosen for one minor version. *)
Definition versionOptions (version : string) : list string :=
  [ "nfsvers=" +:+ version; "actimeo=1"; "soft"; "timeo=30"; "retry=2" ].

(** The [for _, version := range MinorVersions] loop of [mount]. *)
Fixpoint stepDown (versions : list string) (retErr : error) (b : BackupStoreDriver)
    : M (option error * BackupStoreDriver) :=
  match versions with
  | [] => mret (Some retErr, b)
  | version :: rest =>
      let b := set_mountOptions b (versionOptions version) in
      let sensitiveMountOptions : list string := [] in
      err ← MountWithTimeout (serverPath b) (mountDir b) "nfs4" (mountOptions b)
              sensitiveMountOptions defaultMountInterval defaultMountTimeout;
      match err with
      | None => mret (None, b)
      | Some err =>
          stepDown rest
            (errors_Wrapf retErr ("vers=" +:+ version +:+ ": " +:+ Error err)) b
      end
  end.

(** [(b *BackupStoreDriver) mount()], with the package variable
    [MinorVersions] as an argument; the receiver is returned with the
    error. *)
Definition mount_with (versions : list string) (b : BackupStoreDriver)
    : M (option error * BackupStoreDriver) :=
  '(mounted, err) ← EnsureMountPoint KIND (mountDir b);
  match err with
  | Some err => mret (Some err, b)
  | None =>
      if (mounted : bool) then mret (None, b)
      else
        let retErr := errors_New "cannot mount using NFSv4" in
        if bool_decide (0 < length (mountOptions b))%nat then
          let sensitiveMountOptions : list string := [] in
          err ← MountWithTimeout (serverPath b) (mountDir b) "nfs4" (mountOptions b)
                  sensitiveMountOptions defaultMountInterval defaultMountTimeout;
          match err with
          | None => mret (None, b)
          | Some err =>
              mret (Some (errors_Wrapf retErr
                            ("nfsOptions=" +:+ fmt_v (mountOptions b) +:+ " : "
                             +:+ Error err)), b)
          end
        else stepDown versions retErr b
  end.

Definition mount : BackupStoreDriver → M (option error * BackupStoreDriver) :=
  mount_with MinorVersions.

Definition Kind (b : BackupStoreDriver) : string := KIND.

Definition GetURL (b : BackupStoreDriver) : string := destURL b.

Definition LocalPath (b : BackupStoreDriver) (path : string) : string :=
  filepath.Join [mountDir b; path].

Definition errMissingHost : error :=
  errors_New "NFS path must follow format: nfs://<server-address>:/<share-name>/".

Definition errMissingPath : error := errors_New "cannot find nfs path".

(** The three derived fields, as [initFunc] assigns them. *)
Definition resolve (u : URL) : BackupStoreDriver :=
  let serverPath := Host u +:+ Path u in
  {| serverPath := serverPath;
     destURL := KIND +:+ "://" +:+ serverPath;
     mountDir :=
       filepath.Join
         [ util_MountDir;
           strings.TrimRight (strings.Replace (Host u) "." "_" (-1)) ":";
           Path u ];
     mountOptions := [] |}.

(** [initFunc(destURL)]: the driver on success, the error otherwise.
    Creating the file-system operator and the mounter has no effect of its
    own, and log lines are not modelled. *)
Definition initFunc (destURL : string) : M (error + BackupStoreDriver) :=
  match url_Parse destURL with
  | inl err => mret (inl err)
  | inr u =>
      if bool_decide (Scheme u ≠ KIND) then
        mret (inl (errors_New
                     ("BUG: Why dispatch " +:+ Scheme u +:+ " to " +:+ KIND +:+ "?")))
      else if bool_decide (Host u = "") then mret (inl errMissingHost)
      else if bool_decide (Path u = "") then mret (inl errMissingPath)
      else
        let b := resolve u in
        let b :=
          match URL_Query u !! "nfsOptions" with
          | Some nfsOptions => set_mountOptions b (util_SplitMountOptions nfsOptions)
          | None => b
          end in
        '(err, b) ← mount b;
        match err with
        | Some err =>
            mret (inl (errors_Wrapf err
                         ("cannot mount nfs " +:+ serverPath b +:+ ", options "
                          +:+ fmt_v (mountOptions b))))
        | None =>
            '(_, err) ← List (LocalPath b) "";
            match err with
            | Some err =>
                mret (inl (errors_Wrapf err
                             ("NFS path " +:+ serverPath b
                              +:+ " doesn't exist or is not a directory")))
            | None => mret (inr b)
            end
        end
  end.

(** The mount attempts among the calls logged in a world. *)
Definition mountAttempts (w : World) : list Call :=
  filter (λ c, isMountAttempt c = true) (calls w).

(** *** Vocabulary of the statements *)

(** One call of [util.MountWithTimeout] as [mount] issues it. *)
Definition attempt (b : BackupStoreDriver) (options : list string) : Call :=
  CallMountWithTimeout (serverPath b) (mountDir b) "nfs4" options []
    defaultMountInterval defaultMountTimeout.

(** [StepsFail b versions x errs x']: from the external state [x], the mount
    attempts for [versions], made in this order with the options of each
    version, all fail, with the errors [errs], and leave the state [x']. *)
Inductive StepsFail (b : BackupStoreDriver) : list string → W → list error → W → Prop :=
  | StepsFail_nil x : StepsFail b [] x [] x
  | StepsFail_cons version versions x err x1 errs x2 :
      util_MountWithTimeout (serverPath b) (mountDir b) "nfs4" (versionOptions version) []
        defaultMountInterval defaultMountTimeout x = (Some err, x1) →
      StepsFail b versions x1 errs x2 →
      StepsFail b (version :: versions) x (err :: errs) x2.

(** The same, computed: the errors and the final state when the attempts
    for [versions] all fail from [x], [None] when one of them succeeds. *)
Fixpoint failures (b : BackupStoreDriver) (versions : list string) (x : W)
    : option (list error * W) :=
  match versions with
  | [] => Some ([], x)
  | version :: versions =>
      match util_MountWithTimeout (serverPath b) (mountDir b) "nfs4"
              (versionOptions version) [] defaultMountInterval defaultMountTimeout x with
      | (Some err, x1) =>
          match failures b versions x1 with
          | Some (errs, x2) => Some (err :: errs, x2)
          | None => None
          end
      | (None, _) => None
      end
  end.

(** The entry that a failed attempt for [version] adds to the error. *)
Definition entry (version : string) (err : error) : string :=
  "vers=" +:+ version +:+ ": " +:+ Error err.

(** The error after wrapping one entry per failed version around [retErr]. *)
Definition wrapEntries (retErr : error) (versions : list string) (errs : list error) : error :=
  foldl (λ acc ve, errors_Wrapf acc (entry ve.1 ve.2)) retErr (zip versions errs).

(** The options the caller pinned in the query, if any. *)
Definition pinned (u : URL) : list string :=
  match URL_Query u !! "nfsOptions" with
  | Some nfsOptions => util_SplitMountOptions nfsOptions
  | None => []
  end.

(** The error [initFunc] returns when [mount] fails with [err] on [b]. *)
Definition errCannotMount (err : error) (b : BackupStoreDriver) : error :=
  errors_Wrapf err
    ("cannot mount nfs " +:+ serverPath b +:+ ", options " +:+ fmt_v (mountOptions b)).

End driver.

Arguments World W : clear implicits.
Arguments M W A : clear implicits.

End nfs.

(** ** Host sanitisation, as the specification words it *)

(** Every [.] becomes [_]. *)
Fixpoint underscored (host : string) : string :=
  match host with
  | "" => ""
  | String c host' =>
      String (if bool_decide (c = "."%char) then "_"%char else c) (underscored host')
  end.

(** A string of [n] colons. *)
Fixpoint colons (n : nat) : string :=
  match n with O => "" | S n' => String ":"%char (colons n') end.

(** The last byte of [s] is [c]. *)
Fixpoint EndsWith (s : string) (c : ascii) : bool :=
  match s with
  | "" => false
  | String d "" => bool_decide (d = c)
  | String _ s' => EndsWith s' c
  end.

(** "replaces every literal [.] with [_] and strips a single trailing [:]
    if present". *)
Definition sanitize_spec (host : string) : string :=
  strings.TrimSuffix1 (underscored host) ":".

(** ** A scripted machine

    An instance of the imports on which the driver can be run: the mount
    table is one flag, every mount attempt consumes the next scripted
    outcome, and URLs of the plain shape [scheme://host/path?query] are
    taken apart at their delimiters. *)

Module Scenario.
Import nfs.

Record Machine := {
  mounted : bool;                       (* the mount point is active *)
  outcomes : list (option string);      (* failure messages of the coming mount attempts *)
  listing : option string               (* failure message of listing the mount root *)
}.

(** [strings.Cut(s, sep)]. *)
Fixpoint Cut (s sep : string) : string * string * bool :=
  match s with
  | "" => (s, "", bool_decide (sep = ""))
  | String c s' =>
      if strings.HasPrefix s sep
      then ("", String.substring (String.length sep) (String.length s) s, true)
      else
        let '(before, after, found) := Cut s' sep in
        if found then (String c before, after, true) else (s, "", false)
  end.

Definition Parse (rawURL : string) : error + URL :=
  let '(scheme, rest, found) := Cut rawURL "://" in
  if negb found then inl (errors_New ("parse " +:+ rawURL +:+ ": missing protocol scheme"))
  else
    let '(authorityPath, query, _) := Cut rest "?" in
    let '(host, path, rooted) := Cut authorityPath "/" in
    inr {| Scheme := scheme; Host := host;
           Path := if rooted then "/" +:+ path else "";
           RawQuery := query |}.

Definition addValue (m : gmap string (list string)) (pair : string) :=
  let '(key, value, _) := Cut pair "=" in
  if bool_decide (pair = "") then m
  else <[key := default [] (m !! key) ++ [value]]> m.

Definition Query (u : URL) : gmap string (list string) :=
  fold_left addValue (strings.Split1 (RawQuery u) "&") ∅.

(** A stand-in for [util.SplitMountOptions], whose source is not at hand:
    the values are cut at their commas and empty tokens are dropped. *)
Definition SplitMountOptions (options : list string) : list string :=
  filter (λ o, o ≠ "") (concat (map (λ o, strings.Split1 o ",") options)).

Definition MountWithTimeout (m : Machine) : option error * Machine :=
  match outcomes m with
  | [] => (None, {| mounted := true; outcomes := []; listing := listing m |})
  | None :: rest => (None, {| mounted := true; outcomes := rest; listing := listing m |})
  | Some msg :: rest =>
      (Some (errors_New msg), {| mounted := false; outcomes := rest; listing := listing m |})
  end.

#[export] Instance imports : Imports Machine := {|
  url_Parse := Parse;
  URL_Query := Query;
  util_MountDir := "/var/lib/longhorn-backupstore-mounts";
  util_SplitMountOptions := SplitMountOptions;
  util_EnsureMountPoint := λ _ _ m, ((mounted m, None), m);
  util_MountWithTimeout := λ _ _ _ _ _ _ _ m, MountWithTimeout m;
  fsops_List := λ _ _ m, (([], errors_New <$> listing m), m)
|}.

Definition boot (m : Machine) : World Machine := {| ext := m; calls := [] |}.

Definition fresh (script : list (option string)) : Machine :=
  {| mounted := false; outcomes := script; listing := None |}.

(** The descriptors of the scenarios. *)
Definition pinnedDescriptor : string :=
  "nfs://fileserver:/exports/backups?nfsOptions=nfsvers=4.1,soft".
Definition pinnedURL : URL :=
  {| Scheme := "nfs"; Host := "fileserver:"; Path := "/exports/backups";
     RawQuery := "nfsOptions=nfsvers=4.1,soft" |}.
Definition plainDescriptor : string := "nfs://fileserver/exports/backups".
Definition plainURL : URL :=
  {| Scheme := "nfs"; Host := "fileserver"; Path := "/exports/backups"; RawQuery := "" |}.
Definition colonsDescriptor : string := "nfs://file.server::/exports".
Definition colonsURL : URL :=
  {| Scheme := "nfs"; Host := "file.server::"; Path := "/exports"; RawQuery := "" |}.
Definition plainDir : string :=
  "/var/lib/longhorn-backupstore-mounts/fileserver/exports/backups".

(** The driver and the machine after mounting [plainDescriptor] at the first
    attempt. *)
Definition plainDriver : BackupStoreDriver :=
  {| destURL := "nfs://fileserver/exports/backups";
     serverPath := "fileserver/exports/backups";
     mountDir := plainDir;
     mountOptions := versionOptions "4.2" |}.
Definition up : Machine := {| mounted := true; outcomes := []; listing := None |}.
Definition down : Machine := {| mounted := false; outcomes := []; listing := None |}.

End Scenario.

(** ** A machine whose mount table cannot be read

    The scripted machine again, except that the mount-point check itself
    fails. *)

Module Faulty.
Import nfs.

Definition checkError : error := errors_New "stat failed".

Definition imports : Imports Scenario.Machine := {|
  url_Parse := Scenario.Parse;
  URL_Query := Scenario.Query;
  util_MountDir := "/var/lib/longhorn-backupstore-mounts";
  util_SplitMountOptions := Scenario.SplitMountOptions;
  util_EnsureMountPoint := λ _ _ m, ((false, Some checkError), m);
  util_MountWithTimeout := λ _ _ _ _ _ _ _ m, Scenario.MountWithTimeout m;
  fsops_List := λ _ _ m, (([], errors_New <$> Scenario.listing m), m)
|}.

End Faulty.

(** * Properties *)

(** ** The library models on the examples of the Go documentation and tests *)

Example Clean_doubled_slash : filepath.Clean "abc//def//ghi" = "abc/def/ghi".
Proof. reflexivity. Qed.
Example Clean_empty : filepath.Clean "" = ".".
Proof. reflexivity. Qed.
Example Clean_root : filepath.Clean "/" = "/".
Proof. reflexivity. Qed.
Example Clean_trailing_slash : filepath.Clean "/abc/" = "/abc".
Proof. reflexivity. Qed.
Example Clean_dot_element : filepath.Clean "/./abc/def" = "/abc/def".
Proof. reflexivity. Qed.
Example Clean_inner_dotdot : filepath.Clean "abc/def/ghi/../jkl" = "abc/def/jkl".
Proof. reflexivity. Qed.
Example Clean_to_dot : filepath.Clean "abc/def/../.." = ".".
Proof. reflexivity. Qed.
Example Clean_above_root : filepath.Clean "/abc/def/../../.." = "/".
Proof. reflexivity. Qed.
Example Clean_leading_dotdot :
  filepath.Clean "abc/def/../../../ghi/jkl/../../../mno" = "../../mno".
Proof. reflexivity. Qed.
Example Clean_rooted_dotdot : filepath.Clean "/../abc" = "/abc".
Proof. reflexivity. Qed.
Example Clean_combination : filepath.Clean "abc/../../././../def" = "../../def".
Proof. reflexivity. Qed.
Example Clean_kept_dotdot : filepath.Clean "../../abc" = "../../abc".
Proof. reflexivity. Qed.
Example Join_skips_empty : filepath.Join [""; "a"; ""; "b"] = "a/b".
Proof. reflexivity. Qed.
Example Join_all_empty : filepath.Join [""; ""] = "".
Proof. reflexivity. Qed.
Example Join_cleans : filepath.Join ["a/b"; "../../../xyz"] = "../xyz".
Proof. reflexivity. Qed.
Example Replace_all : strings.Replace "oink oink oink" "k" "ky" (-1) = "oinky oinky oinky".
Proof. reflexivity. Qed.
Example Replace_some : strings.Replace "oink oink oink" "oink" "moo" 2 = "moo moo oink".
Proof. reflexivity. Qed.
Example TrimRight_run : strings.TrimRight "a:b::" ":" = "a:b".
Proof. reflexivity. Qed.
Example fmt_v_options : fmt_v ["nfsvers=4.1"; "soft"] = "[nfsvers=4.1 soft]".
Proof. reflexivity. Qed.

Import nfs.

(** ** The mount negotiation *)

Section negotiation.
Context {W : Type} `{!Imports W}.
Implicit Types (b : BackupStoreDriver) (x : W) (cs : list Call) (w : World W).

Lemma run_EnsureMountPoint kind dir x cs :
  EnsureMountPoint kind dir {| ext := x; calls := cs |} =
  let (r, x') := util_EnsureMountPoint kind dir x in
  (r, {| ext := x'; calls := cs ++ [CallEnsureMountPoint kind dir] |}).
Proof. reflexivity. Qed.

Lemma run_MountWithTimeout b options x cs :
  MountWithTimeout (serverPath b) (mountDir b) "nfs4" options []
    defaultMountInterval defaultMountTimeout {| ext := x; calls := cs |} =
  let (r, x') :=
    util_MountWithTimeout (serverPath b) (mountDir b) "nfs4" options []
      defaultMountInterval defaultMountTimeout x in
  (r, {| ext := x'; calls := cs ++ [attempt b options] |}).
Proof. reflexivity. Qed.

Lemma set_mountOptions_id b : set_mountOptions b (mountOptions b) = b.
Proof. by destruct b. Qed.

Lemma failures_StepsFail b versions : ∀ x errs x',
  failures b versions x = Some (errs, x') → StepsFail b versions x errs x'.
Proof.
  induction versions as [|v vs IH]; intros x errs x' Hf; simpl in Hf.
  - injection Hf as <- <-. constructor.
  - destruct (util_MountWithTimeout _ _ _ _ _ _ _ x) as [[e|] x1] eqn:Hv; [|done].
    destruct (failures b vs x1) as [[es x2]|] eqn:Hvs; [|done].
    injection Hf as <- <-. econstructor; eauto.
Qed.

Lemma StepsFail_length b versions x errs x' :
  StepsFail b versions x errs x' → length errs = length versions.
Proof. induction 1; simpl; congruence. Qed.

Lemma StepsFail_set_mountOptions b options versions x errs x' :
  StepsFail b versions x errs x' →
  StepsFail (set_mountOptions b options) versions x errs x'.
Proof. induction 1; econstructor; eauto. Qed.

(** The loop when every attempt fails: one call and one wrapped entry per
    version, and the options of the last version stay in the driver. *)
Lemma stepDown_all_fail versions : ∀ b x errs x' retErr cs,
  StepsFail b versions x errs x' →
  stepDown versions retErr b {| ext := x; calls := cs |} =
  ((Some (wrapEntries retErr versions errs),
    set_mountOptions b (default (mountOptions b) (last (versionOptions <$> versions)))),
   {| ext := x'; calls := cs ++ ((attempt b ∘ versionOptions) <$> versions) |}).
Proof.
  induction versions as [|v vs IH]; intros b x errs x' retErr cs Hfail.
  - inversion Hfail; subst. simpl.
    by rewrite set_mountOptions_id, app_nil_r.
  - inversion Hfail as [|? ? ? e x1 es ? Hv Hrest]; subst.
    cbn [stepDown]. unfold mbind, M_bind.
    rewrite (run_MountWithTimeout (set_mountOptions b (versionOptions v))).
    cbn [serverPath mountDir mountOptions set_mountOptions]. rewrite Hv.
    rewrite (IH (set_mountOptions b (versionOptions v)) x1 es x');
      [|by apply StepsFail_set_mountOptions].
    cbn [set_mountOptions destURL serverPath mountDir mountOptions].
    rewrite fmap_cons, last_cons.
    unfold wrapEntries. cbn [zip zip_with foldl fst snd].
    rewrite <- app_assoc. simpl.
    f_equal. f_equal. f_equal.
    by destruct (last (versionOptions <$> vs)).
Qed.

(** The loop when the attempts for [pre] fail and the one for [version]
    succeeds: it returns at once, and [post] is never tried. *)
Lemma stepDown_first_success pre version post b x errs x1 x2 retErr cs :
  StepsFail b pre x errs x1 →
  util_MountWithTimeout (serverPath b) (mountDir b) "nfs4" (versionOptions version) []
    defaultMountInterval defaultMountTimeout x1 = (None, x2) →
  stepDown (pre ++ version :: post) retErr b {| ext := x; calls := cs |} =
  ((None, set_mountOptions b (versionOptions version)),
   {| ext := x2; calls := cs ++ ((attempt b ∘ versionOptions) <$> (pre ++ [version])) |}).
Proof.
  revert b x errs retErr cs.
  induction pre as [|v vs IH]; intros b x errs retErr cs Hfail Hok.
  - inversion Hfail; subst. cbn [app stepDown]. unfold mbind, M_bind.
    rewrite (run_MountWithTimeout (set_mountOptions b (versionOptions version))).
    cbn [serverPath mountDir mountOptions set_mountOptions]. by rewrite Hok.
  - inversion Hfail as [|? ? ? e x' es ? Hv Hrest]; subst.
    rewrite <- app_comm_cons. cbn [stepDown]. unfold mbind, M_bind.
    rewrite (run_MountWithTimeout (set_mountOptions b (versionOptions v))).
    cbn [serverPath mountDir mountOptions set_mountOptions]. rewrite Hv.
    rewrite (IH (set_mountOptions b (versionOptions v)) x' es);
      [|by apply StepsFail_set_mountOptions|exact Hok].
    cbn [set_mountOptions destURL serverPath mountDir mountOptions].
    rewrite <- app_assoc. reflexivity.
Qed.

(** [mount] once the check has found the directory not mounted and the
    driver holds no options: the loop decides. *)
Lemma mount_with_unpinned versions b x x0 cs :
  mountOptions b = [] →
  util_EnsureMountPoint KIND (mountDir b) x = ((false, None), x0) →
  mount_with versions b {| ext := x; calls := cs |} =
  stepDown versions (errors_New "cannot mount using NFSv4") b
    {| ext := x0; calls := cs ++ [CallEnsureMountPoint KIND (mountDir b)] |}.
Proof.
  intros Hopts Hcheck. unfold mount_with, mbind, M_bind.
  rewrite run_EnsureMountPoint, Hcheck, Hopts. reflexivity.
Qed.

(** [mount] with options in the driver: one attempt, whatever the list of
    versions. *)
Lemma mount_with_pinned versions b x x0 x1 r cs :
  mountOptions b ≠ [] →
  util_EnsureMountPoint KIND (mountDir b) x = ((false, None), x0) →
  util_MountWithTimeout (serverPath b) (mountDir b) "nfs4" (mountOptions b) []
    defaultMountInterval defaultMountTimeout x0 = (r, x1) →
  mount_with versions b {| ext := x; calls := cs |} =
  ((match r with
    | None => None
    | Some err =>
        Some (errors_Wrapf (errors_New "cannot mount using NFSv4")
                ("nfsOptions=" +:+ fmt_v (mountOptions b) +:+ " : " +:+ Error err))
    end, b),
   {| ext := x1;
      calls := cs ++ [CallEnsureMountPoint KIND (mountDir b); attempt b (mountOptions b)] |}).
Proof.
  intros Hopts Hcheck Hmount. unfold mount_with, mbind, M_bind.
  rewrite run_EnsureMountPoint, Hcheck.
  rewrite bool_decide_true by (destruct (mountOptions b); [done|simpl; lia]).
  rewrite run_MountWithTimeout, Hmount, <- app_assoc. by destruct r.
Qed.

(** [mount] never touches the three derived fields. *)
Lemma stepDown_frame versions : ∀ retErr b w,
  let b' := (stepDown versions retErr b w).1.2 in
  destURL b' = destURL b ∧ serverPath b' = serverPath b ∧ mountDir b' = mountDir b.
Proof.
  induction versions as [|v vs IH]; intros retErr b [x cs]; [done|].
  cbn [stepDown]. unfold mbind, M_bind.
  rewrite (run_MountWithTimeout (set_mountOptions b (versionOptions v))).
  destruct (util_MountWithTimeout _ _ _ _ _ _ _ x) as [[e|] x']; [|done].
  apply (IH _ (set_mountOptions b (versionOptions v))).
Qed.

Lemma mount_with_frame versions b w :
  let b' := (mount_with versions b w).1.2 in
  destURL b' = destURL b ∧ serverPath b' = serverPath b ∧ mountDir b' = mountDir b.
Proof.
  destruct w as [x cs]. unfold mount_with, mbind, M_bind.
  rewrite run_EnsureMountPoint.
  destruct (util_EnsureMountPoint _ _ x) as [[mounted [e|]] x0]; [done|].
  destruct mounted; [done|].
  case_bool_decide.
  - rewrite run_MountWithTimeout.
    by destruct (util_MountWithTimeout _ _ _ _ _ _ _ x0) as [[e|] x1].
  - apply stepDown_frame.
Qed.

End negotiation.

(** ** Initialisation *)

Section initialisation.
Context {W : Type} `{!Imports W}.
Implicit Types (b : BackupStoreDriver) (x : W) (cs : list Call) (w : World W) (u : URL).

(** The driver [initFunc] hands to [mount]. *)
Lemma resolve_pinned u :
  match URL_Query u !! "nfsOptions" with
  | Some nfsOptions => set_mountOptions (resolve u) (util_SplitMountOptions nfsOptions)
  | None => resolve u
  end = set_mountOptions (resolve u) (pinned u).
Proof. unfold pinned. by destruct (URL_Query u !! "nfsOptions"). Qed.

(** [initFunc] behind its four guards. *)
Lemma initFunc_parsed d u w :
  url_Parse d = inr u → Scheme u = KIND → Host u ≠ "" → Path u ≠ "" →
  initFunc d w =
  let '((err, b), w1) := mount (set_mountOptions (resolve u) (pinned u)) w in
  match err with
  | Some err => (inl (errCannotMount err b), w1)
  | None =>
      let '((_, err), w2) := List (LocalPath b) "" w1 in
      (match err with
       | Some err =>
           inl (errors_Wrapf err
                  ("NFS path " +:+ serverPath b +:+ " doesn't exist or is not a directory"))
       | None => inr b
       end, w2)
  end.
Proof.
  intros Hparse Hscheme Hhost Hpath. unfold initFunc. rewrite Hparse.
  rewrite bool_decide_false by (by intros ?).
  rewrite !bool_decide_false by done.
  rewrite resolve_pinned. unfold mbind, M_bind.
  destruct (mount _ w) as [[[err|] b] w1]; [done|].
  destruct (List _ _ w1) as [[entries [err|]] w2]; done.
Qed.

(** What a successful [initFunc] tells about its argument and its result. *)
Lemma initFunc_inr d u w b w' :
  url_Parse d = inr u → initFunc d w = (inr b, w') →
  Scheme u = KIND ∧ Host u ≠ "" ∧ Path u ≠ "" ∧
  destURL b = destURL (resolve u) ∧ serverPath b = serverPath (resolve u) ∧
  mountDir b = mountDir (resolve u).
Proof.
  intros Hparse Hinit.
  assert (Scheme u = KIND ∧ Host u ≠ "" ∧ Path u ≠ "") as (Hs & Hh & Hp).
  { unfold initFunc in Hinit. rewrite Hparse in Hinit.
    repeat case_bool_decide; try discriminate Hinit.
    split_and!; [|done..]. by destruct (decide (Scheme u = KIND)). }
  split_and!; [done..| | |];
    rewrite (initFunc_parsed d u w) in Hinit by done;
    pose proof (mount_with_frame MinorVersions (set_mountOptions (resolve u) (pinned u)) w)
      as (Hd & Hsp & Hmd);
    fold mount in Hd, Hsp, Hmd;
    destruct (mount _ w) as [[[err|] b1] w1]; try discriminate Hinit;
    destruct (List _ _ w1) as [[entries [err|]] w2]; try discriminate Hinit;
    injection Hinit as -> ->; simpl in *; congruence.
Qed.

End initialisation.

(** ** Byte strings *)

Section byte_strings.
Implicit Types (s t u : string) (c sep : ascii).

Lemma app_cons c s t : String c s +:+ t = String c (s +:+ t).
Proof. reflexivity. Qed.

Lemma app_empty_r s : s +:+ "" = s.
Proof. induction s as [|c s IH]; [done|]. by rewrite app_cons, IH. Qed.

Lemma app_assoc_string s t u : (s +:+ t) +:+ u = s +:+ (t +:+ u).
Proof. induction s as [|c s IH]; [done|]. by rewrite !app_cons, IH. Qed.

Lemma length_app_string s t :
  String.length (s +:+ t) = (String.length s + String.length t)%nat.
Proof. induction s as [|c s IH]; [done|]. rewrite app_cons. simpl. by rewrite IH. Qed.

Lemma app_eq_empty s t : s +:+ t = "" → s = "" ∧ t = "".
Proof. destruct s; [done|]. by rewrite app_cons. Qed.

Lemma HasPrefix_length s t :
  strings.HasPrefix s t = true → (String.length t ≤ String.length s)%nat.
Proof.
  revert s. induction t as [|p t IH]; intros [|c s]; simpl; try (done || lia).
  intros [_ Ht]%andb_true_iff. apply IH in Ht. lia.
Qed.

(** *** Splitting and joining *)

Lemma Split1_cons s sep : ∃ h l, strings.Split1 s sep = h :: l.
Proof.
  induction s as [|c s (h & l & IH)]; simpl; [by eauto|].
  case_bool_decide; [by eauto|]. rewrite IH. eauto.
Qed.

Lemma Split1_app s t sep :
  strings.Split1 (s +:+ String sep t) sep = strings.Split1 s sep ++ strings.Split1 t sep.
Proof.
  induction s as [|c s IH].
  - simpl. by rewrite bool_decide_true.
  - rewrite app_cons. simpl. rewrite IH. case_bool_decide; [done|].
    by destruct (Split1_cons s sep) as (h & l & ->).
Qed.

Lemma Split1_free s sep :
  strings.contains s sep = false → strings.Split1 s sep = [s].
Proof.
  induction s as [|c s IH]; [done|]. simpl.
  intros [Hc Hs]%orb_false_iff. apply bool_decide_eq_false in Hc.
  rewrite bool_decide_false by congruence. by rewrite IH.
Qed.

Lemma Split1_elements_free s sep :
  Forall (λ e, strings.contains e sep = false) (strings.Split1 s sep).
Proof.
  induction s as [|c s IH]; simpl; [by repeat constructor|].
  case_bool_decide as Hc; [by constructor|].
  destruct (strings.Split1 s sep) as [|h l].
  { constructor; [|done]. simpl. by rewrite bool_decide_false by congruence. }
  inversion IH as [|? ? Hh Hl]; subst. constructor; [|done].
  simpl. rewrite Hh. rewrite bool_decide_false by congruence. done.
Qed.

Lemma Join_cons_cons e e' l (sep : string) :
  strings.Join (e :: e' :: l) sep = e +:+ sep +:+ strings.Join (e' :: l) sep.
Proof. reflexivity. Qed.

Lemma Join_snoc l e (sep : string) :
  l ≠ [] → strings.Join (l ++ [e]) sep = strings.Join l sep +:+ sep +:+ e.
Proof.
  induction l as [|a l IH]; [done|]. intros _.
  destruct l as [|a' l]; [done|].
  rewrite <- !app_comm_cons, !Join_cons_cons.
  rewrite <- !app_comm_cons in IH. rewrite IH by done.
  by rewrite !app_assoc_string.
Qed.

Lemma Split1_Join l sep :
  l ≠ [] → Forall (λ e, strings.contains e sep = false) l →
  strings.Split1 (strings.Join l (String sep "")) sep = l.
Proof.
  induction l as [|e l IH]; [done|]. intros _ Hl.
  inversion Hl as [|? ? He Hl']; subst.
  destruct l as [|e' l]; [by apply Split1_free|].
  rewrite Join_cons_cons. change (String sep "" +:+ ?t) with (String sep t).
  rewrite Split1_app, Split1_free, IH by done. done.
Qed.

End byte_strings.

(** ** Cleaning paths *)

Section clean_paths.
Import filepath.
Implicit Types (rooted : bool) (out : lazybuf) (elem path rel : string) (l : list string).

Lemma step_real rooted out elem :
  real elem → step rooted out elem = {| dotdot := dotdot out; elems := elem :: elems out |}.
Proof. intros (? & ? & ? & _). unfold step. by rewrite !bool_decide_false. Qed.

Lemma fold_step_real rooted l : ∀ out,
  Forall real l →
  fold_left (step rooted) l out =
  {| dotdot := dotdot out; elems := reverse l ++ elems out |}.
Proof.
  induction l as [|e l IH]; intros out Hl; [by destruct out|].
  inversion Hl; subst. simpl. rewrite IH, step_real by done. simpl.
  by rewrite reverse_cons, <- app_assoc.
Qed.

Lemma step_dotdot k :
  step false {| dotdot := k; elems := [] |} ".." = {| dotdot := S k; elems := [] |}.
Proof. reflexivity. Qed.

Lemma fold_step_dotdot n : ∀ k,
  fold_left (step false) (replicate n "..") {| dotdot := k; elems := [] |} =
  {| dotdot := n + k; elems := [] |}.
Proof.
  induction n as [|n IH]; intros k; [done|].
  cbn [replicate fold_left]. rewrite step_dotdot, (IH (S k)). f_equal. lia.
Qed.

Lemma step_reachable rooted out elem :
  strings.contains elem Separator = false →
  reachable rooted out → reachable rooted (step rooted out elem).
Proof.
  intros Hfree [Hreal Hroot]. unfold step.
  repeat case_bool_decide; try done.
  - destruct (elems out) as [|e rest] eqn:Helems.
    + destruct rooted; [by split; [rewrite Helems|]|]. by split; [constructor|].
    + split; [|done]. simpl. by inversion Hreal.
  - split; [|done]. simpl. by constructor.
Qed.

Lemma fold_step_reachable rooted l : ∀ out,
  Forall (λ e, strings.contains e Separator = false) l →
  reachable rooted out → reachable rooted (fold_left (step rooted) l out).
Proof.
  induction l as [|e l IH]; intros out Hl Hout; [done|].
  inversion Hl; subst. simpl. apply IH; [done|]. by apply step_reachable.
Qed.

Lemma written_free rooted out :
  reachable rooted out →
  Forall (λ e, strings.contains e Separator = false) (written out).
Proof.
  intros [Hreal _]. apply Forall_app. split.
  - by apply Forall_replicate.
  - apply Forall_reverse. eapply Forall_impl; [exact Hreal|]. by intros e (_ & _ & _ & ?).
Qed.

Lemma written_head out e l :
  Forall real (elems out) → written out = e :: l →
  ∃ c e', e = String c e' ∧ c ≠ Separator.
Proof.
  unfold written. intros Hreal Heq.
  destruct (dotdot out) as [|n]; simpl in Heq.
  - assert (real e) as (Hne & _ & _ & Hfree).
    { rewrite Forall_forall in Hreal. apply Hreal.
      apply elem_of_reverse. rewrite Heq. by left. }
    destruct e as [|c e']; [done|]. exists c, e'. split; [done|].
    simpl in Hfree. apply orb_false_iff in Hfree as [Hc _].
    apply bool_decide_eq_false in Hc. congruence.
  - injection Heq as <- _. by eexists _, _.
Qed.

Lemma Join_head e l (sep : string) c e' :
  e = String c e' → ∃ t, strings.Join (e :: l) sep = String c t.
Proof. intros ->. destruct l; [by eexists|]. rewrite Join_cons_cons. by eexists. Qed.

Lemma render_cons rooted out :
  reachable rooted out →
  ∃ c t, render rooted out = String c t ∧ bool_decide (c = Separator) = rooted.
Proof.
  intros Hout. unfold render.
  destruct rooted; [by eexists _, _|].
  destruct (written out) as [|e l] eqn:Hw; [by eexists _, _|].
  destruct Hout as [Hreal _].
  destruct (written_head out e l Hreal Hw) as (c & e' & He & Hc).
  destruct (Join_head e l "/" c e' He) as (t & Ht). rewrite Ht.
  rewrite bool_decide_false by done. exists c, t.
  by rewrite bool_decide_false.
Qed.

Lemma IsRooted_render rooted out :
  reachable rooted out → IsRooted (render rooted out) = rooted.
Proof. intros (c & t & -> & Hc)%render_cons. done. Qed.

Lemma render_nonempty rooted out : reachable rooted out → render rooted out ≠ "".
Proof. by intros (c & t & -> & _)%render_cons. Qed.

(** Reading a rendered path back gives the buffer it was rendered from. *)
Lemma fold_step_render rooted out :
  reachable rooted out →
  fold_left (step rooted) (strings.Split1 (render rooted out) Separator) start = out.
Proof.
  intros Hout. pose proof (written_free rooted out Hout) as Hfree.
  destruct Hout as [Hreal Hroot]. unfold render.
  assert (fold_left (step rooted) (written out) start = out) as Hwritten.
  { unfold written in *. rewrite fold_left_app.
    destruct rooted.
    - rewrite Hroot by done. simpl. rewrite fold_step_real by by apply Forall_reverse.
      destruct out as [n es]. simpl in *. rewrite Hroot by done.
      by rewrite reverse_involutive, app_nil_r.
    - unfold start. rewrite fold_step_dotdot, fold_step_real by by apply Forall_reverse.
      destruct out as [n es]. simpl.
      by rewrite reverse_involutive, app_nil_r, Nat.add_0_r. }
  destruct (written out) as [|e l] eqn:Hw.
  - destruct rooted; simpl in *; done.
  - destruct rooted.
    + change ("/" +:+ ?t) with (String Separator t).
      change (String Separator ?t) with ("" +:+ String Separator t).
      rewrite Split1_app, (Split1_Join (e :: l)) by done. exact Hwritten.
    + destruct (written_head out e l Hreal Hw) as (c & e' & He & Hc).
      destruct (Join_head e l "/" c e' He) as (t & Ht).
      rewrite bool_decide_false by (by rewrite Ht).
      rewrite (Split1_Join (e :: l)) by done. exact Hwritten.
Qed.

(** Every cleaned path is the rendering of a reachable buffer. *)
Lemma Clean_rendered path :
  ∃ rooted out, reachable rooted out ∧ Clean path = render rooted out.
Proof.
  unfold Clean. case_bool_decide.
  - exists false, start. by split; [split|].
  - eexists _, _. split; [|done].
    apply fold_step_reachable; [apply Split1_elements_free|by split].
Qed.

(** Cleaning [dir/rel] for a clean [dir] continues from the buffer of
    [dir] with the elements of [rel]. *)
Lemma Clean_below rooted out rel :
  reachable rooted out →
  Clean (render rooted out +:+ "/" +:+ rel) =
  render rooted (fold_left (step rooted) (strings.Split1 rel Separator) out).
Proof.
  intros Hout. unfold Clean.
  destruct (render_cons rooted out Hout) as (c & t & Hr & Hc).
  rewrite bool_decide_false by (by rewrite Hr).
  assert (IsRooted (render rooted out +:+ "/" +:+ rel) = rooted) as ->.
  { by rewrite Hr. }
  change ("/" +:+ rel) with (String Separator rel).
  by rewrite Split1_app, fold_left_app, fold_step_render.
Qed.

Lemma Clean_idempotent path : Clean (Clean path) = Clean path.
Proof.
  destruct (Clean_rendered path) as (rooted & out & Hout & ->).
  unfold Clean at 1. rewrite bool_decide_false by by apply render_nonempty.
  by rewrite IsRooted_render, fold_step_render.
Qed.

End clean_paths.

(** ** Sanitising the host *)

Section sanitising.
Implicit Types (s h host : string) (n : nat).

Lemma Replace_go_dots host : ∀ k : Z,
  k < 0 → strings.Replace_go "." "_" k 0 host = underscored host.
Proof.
  induction host as [|c host IH]; intros k Hk; [done|].
  cbn [strings.Replace_go underscored strings.HasPrefix].
  rewrite bool_decide_true by lia.
  assert (strings.HasPrefix host "" = true) as -> by by destruct host.
  rewrite andb_true_l, andb_true_r.
  case_bool_decide.
  - change (String.length "." - 1)%nat with 0%nat. rewrite IH by lia. done.
  - by rewrite IH.
Qed.

Lemma Replace_dots host : strings.Replace host "." "_" (-1) = underscored host.
Proof. by apply Replace_go_dots. Qed.

Lemma EndsWith_cons c s : s ≠ "" → EndsWith (String c s) ":" = EndsWith s ":".
Proof. by destruct s. Qed.

Lemma TrimRight_empty_colons s :
  strings.TrimRight s ":" = "" → ∃ n, s = colons n.
Proof.
  induction s as [|c s IH]; [by exists 0%nat|]. simpl.
  destruct (bool_decide (strings.TrimRight s ":" = "")) eqn:Ht; [|done].
  apply bool_decide_eq_true in Ht. destruct (IH Ht) as [n ->].
  rewrite andb_true_l, orb_false_r. case_bool_decide as Hc; [|done].
  intros _. exists (S n). by rewrite Hc.
Qed.

(** [TrimRight] with cutset [":"] removes the whole run of trailing colons. *)
Lemma TrimRight_colons s :
  ∃ n, s = strings.TrimRight s ":" +:+ colons n ∧
       EndsWith (strings.TrimRight s ":") ":" = false.
Proof.
  induction s as [|c s (n & Hs & Hend)]; [by exists 0%nat|]. simpl.
  destruct (bool_decide (strings.TrimRight s ":" = "")) eqn:Ht.
  - apply bool_decide_eq_true in Ht.
    rewrite andb_true_l, orb_false_r. case_bool_decide as Hc.
    + destruct (TrimRight_empty_colons s Ht) as [m ->].
      exists (S m). by rewrite Hc.
    + exists n. rewrite Ht in *. simpl in Hs. rewrite app_cons.
      split; [by rewrite <- Hs|]. simpl. by rewrite bool_decide_false.
  - apply bool_decide_eq_false in Ht. rewrite andb_false_l.
    exists n. rewrite app_cons, <- Hs. split; [done|].
    by rewrite EndsWith_cons.
Qed.

(** The stem before the trailing colons is unique. *)
Lemma colons_stem_unique h : ∀ h' n n',
  h +:+ colons n = h' +:+ colons n' →
  EndsWith h ":" = false → EndsWith h' ":" = false → h = h'.
Proof.
  assert (∀ s n, EndsWith s ":" = false → s ≠ "" → ∀ m, s +:+ colons n ≠ colons m) as Hne.
  { induction s as [|c s IH]; intros n Hend Hs m; [done|].
    destruct m as [|m]; [by rewrite app_cons|]. rewrite app_cons. simpl.
    intros [= -> Heq]. destruct s as [|d s]; [done|].
    apply (IH n Hend ltac:(done) m Heq). }
  induction h as [|c h IH]; intros [|c' h'] n n' Heq Hend Hend'; [done| | |].
  - exfalso. by apply (Hne (String c' h') n' Hend' ltac:(done) n).
  - exfalso. by apply (Hne (String c h) n Hend ltac:(done) n').
  - rewrite !app_cons in Heq. injection Heq as -> Heq. f_equal.
    destruct h as [|d h], h' as [|d' h'].
    + done.
    + exfalso. simpl in Heq.
      apply (Hne (String d' h') n' Hend' ltac:(done) n). by rewrite <- Heq.
    + exfalso. simpl in Heq.
      by apply (Hne (String d h) n Hend ltac:(done) n').
    + by apply (IH (String d' h') n n').
Qed.

End sanitising.

(** ** Paths of an initialised driver *)

Section driver_paths.
Context {W : Type} `{!Imports W}.
Import filepath.
Implicit Types (b : BackupStoreDriver) (w : World W) (u : URL) (rel : string).

Lemma Join_cleaned (elem : list string) :
  Exists (λ e, e ≠ "") elem → ∃ path, filepath.Join elem = Clean path.
Proof.
  induction elem as [|e elem IH]; intros Hex; [by inversion Hex|].
  cbn [filepath.Join]. case_bool_decide as He; [|by eexists].
  apply IH. by inversion Hex.
Qed.

Lemma initFunc_parses d w b w' :
  initFunc d w = (inr b, w') → ∃ u, url_Parse d = inr u.
Proof.
  unfold initFunc. destruct (url_Parse d) as [err|u]; [done|by exists u].
Qed.

(** The mount directory of an initialised driver is a cleaned path. *)
Lemma mountDir_rendered d w b w' :
  initFunc d w = (inr b, w') →
  ∃ rooted out, reachable rooted out ∧ mountDir b = render rooted out.
Proof.
  intros Hinit. destruct (initFunc_parses d w b w' Hinit) as [u Hparse].
  destruct (initFunc_inr d u w b w' Hparse Hinit) as (_ & _ & Hpath & _ & _ & ->).
  destruct (Join_cleaned
              [ util_MountDir;
                strings.TrimRight (strings.Replace (Host u) "." "_" (-1)) ":";
                Path u ]) as [path Hjoin].
  { do 2 apply Exists_cons_tl. by apply Exists_cons_hd. }
  cbn [resolve mountDir]. rewrite Hjoin. apply Clean_rendered.
Qed.

(** [LocalPath] continues cleaning from the mount directory. *)
Lemma LocalPath_rendered b rooted out rel :
  reachable rooted out → mountDir b = render rooted out →
  LocalPath b rel =
  render rooted (fold_left (step rooted) (strings.Split1 rel Separator) out).
Proof.
  intros Hout Hdir. unfold LocalPath. cbn [filepath.Join].
  rewrite Hdir. rewrite bool_decide_false by by apply render_nonempty.
  rewrite <- (Clean_below rooted out rel Hout). done.
Qed.

Lemma render_start rooted out :
  written out = [] → render rooted out = if rooted then "/" else ".".
Proof. unfold render. intros ->. by destruct rooted. Qed.

Lemma Join_nonempty e (l : list string) (sep : string) :
  e ≠ "" → strings.Join (e :: l) sep ≠ "".
Proof.
  destruct e as [|c e]; [done|]. intros _.
  destruct l as [|e' l]; [done|]. by rewrite Join_cons_cons.
Qed.

Lemma written_nonempty rooted out :
  reachable rooted out → written out ≠ [] → strings.Join (written out) "/" ≠ "".
Proof.
  intros [Hreal _] Hw. destruct (written out) as [|e l] eqn:Heq; [done|].
  destruct (written_head out e l Hreal Heq) as (c & e' & -> & _).
  by apply Join_nonempty.
Qed.

(** Appending a real element to a path other than [/] and [.]. *)
Lemma render_push rooted out elem :
  reachable rooted out → written out ≠ [] →
  render rooted {| dotdot := dotdot out; elems := elem :: elems out |} =
  render rooted out +:+ "/" +:+ elem.
Proof.
  intros Hout Hw. pose proof (written_nonempty rooted out Hout Hw) as Hbody.
  unfold render.
  assert (written {| dotdot := dotdot out; elems := elem :: elems out |}
          = written out ++ [elem]) as ->.
  { unfold written. cbn [dotdot elems]. by rewrite reverse_cons, app_assoc. }
  rewrite Join_snoc by done.
  destruct rooted; [by rewrite app_assoc_string|].
  rewrite (bool_decide_false (strings.Join (written out) "/" = "")) by done.
  rewrite bool_decide_false; [done|].
  intros [? _]%app_eq_empty. done.
Qed.

Lemma reachable_push rooted out elem :
  real elem → reachable rooted out →
  reachable rooted {| dotdot := dotdot out; elems := elem :: elems out |}.
Proof. intros Helem [Hreal Hroot]. split; [by constructor|done]. Qed.

Lemma written_push out elem :
  written {| dotdot := dotdot out; elems := elem :: elems out |} ≠ [].
Proof.
  unfold written. cbn [dotdot elems]. rewrite reverse_cons, app_assoc.
  by intros [_ ?]%app_eq_nil.
Qed.

Lemma Clean_render rooted out :
  reachable rooted out → Clean (render rooted out) = render rooted out.
Proof.
  intros Hout. unfold Clean. rewrite bool_decide_false by by apply render_nonempty.
  by rewrite IsRooted_render, fold_step_render.
Qed.

End driver_paths.

(** ** Wrapped errors *)

Section wrapped_errors.
Implicit Types (err retErr : error) (versions : list string) (errs : list error).

(** The message is the wrapped entries, outermost first, then the root
    cause, separated by [": "]. *)
Lemma Error_wrapped err :
  Error err = strings.Join (wrapped err ++ [Error (Cause err)]) ": ".
Proof.
  induction err as [msg|cause IH msg]; [done|]. cbn [Error wrapped Cause].
  rewrite <- app_comm_cons.
  destruct (wrapped cause ++ [Error (Cause cause)]) as [|e l] eqn:Heq.
  { by apply app_eq_nil in Heq as [_ ?]. }
  rewrite Join_cons_cons. by rewrite IH.
Qed.

Lemma wrapped_wrapEntries versions : ∀ errs retErr,
  wrapped (wrapEntries retErr versions errs) =
  reverse (zip_with entry versions errs) ++ wrapped retErr.
Proof.
  unfold wrapEntries.
  induction versions as [|v vs IH]; intros [|e es] retErr; try done.
  cbn [zip zip_with foldl]. rewrite IH. cbn [wrapped fst snd].
  by rewrite reverse_cons, <- app_assoc.
Qed.

Lemma Cause_wrapEntries versions : ∀ errs retErr,
  Cause (wrapEntries retErr versions errs) = Cause retErr.
Proof.
  unfold wrapEntries.
  induction versions as [|v vs IH]; intros [|e es] retErr; try done.
  cbn [zip zip_with foldl]. by rewrite IH.
Qed.

End wrapped_errors.

(** * The statements of the specification *)

Section claims.
Context {W : Type} `{!Imports W}.
Implicit Types (b : BackupStoreDriver) (x : W) (cs : list Call) (w : World W) (u : URL).

Lemma mountAttempts_app w (cs : list Call) x :
  mountAttempts {| ext := x; calls := calls w ++ cs |} =
  mountAttempts w ++ filter (λ c, isMountAttempt c = true) cs.
Proof. unfold mountAttempts. cbn [calls]. apply filter_app. Qed.

(** C1. With no options in the driver and the mount point found not
    mounted, [mount] tries the candidates of the minor versions "4.2",
    "4.1", "4.0" in this order, each with file-system type "nfs4" and the
    options [nfsvers=<v>, actimeo=1, soft, timeo=30, retry=2]; it returns
    at the first attempt that succeeds, and no later version is tried. *)
Theorem fallback_stops_at_first_success b x x0 cs pre version post errs x1 x2 :
  mountOptions b = [] →
  util_EnsureMountPoint KIND (mountDir b) x = ((false, None), x0) →
  MinorVersions = pre ++ version :: post →
  failures b pre x0 = Some (errs, x1) →
  util_MountWithTimeout (serverPath b) (mountDir b) "nfs4" (versionOptions version) []
    defaultMountInterval defaultMountTimeout x1 = (None, x2) →
  MinorVersions = ["4.2"; "4.1"; "4.0"] ∧
  (∀ v, versionOptions v = ["nfsvers=" +:+ v; "actimeo=1"; "soft"; "timeo=30"; "retry=2"]) ∧
  mount b {| ext := x; calls := cs |} =
  ((None, set_mountOptions b (versionOptions version)),
   {| ext := x2;
      calls := cs ++ CallEnsureMountPoint KIND (mountDir b) ::
               ((λ v, CallMountWithTimeout (serverPath b) (mountDir b) "nfs4"
                        (versionOptions v) [] defaultMountInterval defaultMountTimeout)
                  <$> (pre ++ [version])) |}).
Proof.
  intros Hopts Hcheck Hsplit Hpre Hok. split_and!; [done..|].
  unfold mount. rewrite (mount_with_unpinned _ b x x0) by done. rewrite Hsplit.
  rewrite (stepDown_first_success pre version post b x0 errs x1 x2)
    by eauto using failures_StepsFail.
  by rewrite <- app_assoc.
Qed.

(** C2, as the code has it. With no options in the driver, the mount point
    found not mounted and the attempts for all of "4.2", "4.1", "4.0"
    failing, [mount] makes exactly these three attempts and returns one
    error that holds one entry [vers=<v>: <message of that attempt>] per
    version, none left out, wrapped around "cannot mount using NFSv4".  The
    entries are nested in the order of the attempts, so the error message
    and the unwrap chain list them latest attempt first: "4.0", "4.1",
    "4.2". *)
Theorem fallback_failures_aggregated b x x0 cs errs x3 :
  mountOptions b = [] →
  util_EnsureMountPoint KIND (mountDir b) x = ((false, None), x0) →
  failures b MinorVersions x0 = Some (errs, x3) →
  ∃ err b',
    mount b {| ext := x; calls := cs |} =
    ((Some err, b'),
     {| ext := x3;
        calls := cs ++ [ CallEnsureMountPoint KIND (mountDir b);
                         attempt b (versionOptions "4.2");
                         attempt b (versionOptions "4.1");
                         attempt b (versionOptions "4.0") ] |}) ∧
    length errs = length MinorVersions ∧
    wrapped err = reverse (zip_with entry MinorVersions errs) ∧
    Cause err = errors_New "cannot mount using NFSv4" ∧
    Error err =
    strings.Join (reverse (zip_with entry MinorVersions errs) ++ ["cannot mount using NFSv4"])
      ": ".
Proof.
  intros Hopts Hcheck Hfail. apply failures_StepsFail in Hfail.
  eexists _, _. unfold mount.
  rewrite (mount_with_unpinned _ b x x0) by done.
  rewrite (stepDown_all_fail _ b x0 errs x3) by done.
  rewrite <- app_assoc. split; [reflexivity|].
  split; [by eapply StepsFail_length|].
  assert (wrapped (wrapEntries (errors_New "cannot mount using NFSv4") MinorVersions errs)
          = reverse (zip_with entry MinorVersions errs)) as Hwrapped.
  { by rewrite wrapped_wrapEntries, app_nil_r. }
  split; [done|]. split; [by rewrite Cause_wrapEntries|].
  by rewrite Error_wrapped, Hwrapped, Cause_wrapEntries.
Qed.

(** C3. For a descriptor whose [nfsOptions] query yields a non-empty option
    list, once the mount point is found not mounted, initialisation makes
    exactly one mount attempt, with these very options and file-system type
    "nfs4", whatever the list of fallback versions is; when that attempt
    fails, the error carries the entry [nfsOptions=<the options> : <message
    of the attempt>]. *)
Theorem pinned_options_single_attempt d u w nfsOptions x0 x1 r :
  url_Parse d = inr u → Scheme u = KIND → Host u ≠ "" → Path u ≠ "" →
  URL_Query u !! "nfsOptions" = Some nfsOptions →
  util_SplitMountOptions nfsOptions ≠ [] →
  let options := util_SplitMountOptions nfsOptions in
  let b := set_mountOptions (resolve u) options in
  util_EnsureMountPoint KIND (mountDir b) (ext w) = ((false, None), x0) →
  util_MountWithTimeout (serverPath b) (mountDir b) "nfs4" options []
    defaultMountInterval defaultMountTimeout x0 = (r, x1) →
  mountAttempts (initFunc d w).2 =
  mountAttempts w ++
    [CallMountWithTimeout (Host u +:+ Path u) (mountDir b) "nfs4" options []
       defaultMountInterval defaultMountTimeout] ∧
  (∀ versions, mount_with versions b w = mount b w) ∧
  (∀ err, r = Some err →
     (initFunc d w).1 =
     inl (errCannotMount
            (errors_Wrapf (errors_New "cannot mount using NFSv4")
               ("nfsOptions=" +:+ fmt_v options +:+ " : " +:+ Error err)) b)).
Proof.
  intros Hparse Hscheme Hhost Hpath Hquery Hne options b Hcheck Hmount.
  assert (pinned u = options) as Hpinned by (unfold pinned; by rewrite Hquery).
  destruct w as [x cs]. cbn [ext] in Hcheck.
  assert (∀ versions, mount_with versions b {| ext := x; calls := cs |} =
    ((match r with
      | None => None
      | Some err =>
          Some (errors_Wrapf (errors_New "cannot mount using NFSv4")
                  ("nfsOptions=" +:+ fmt_v options +:+ " : " +:+ Error err))
      end, b),
     {| ext := x1;
        calls := cs ++ [CallEnsureMountPoint KIND (mountDir b); attempt b options] |}))
    as Hrun.
  { intros versions. by apply (mount_with_pinned versions b x x0 x1 r cs). }
  rewrite (initFunc_parsed d u) by done. rewrite Hpinned. fold b.
  unfold mount. rewrite !Hrun. split_and!.
  - destruct r as [err|].
    + cbn [snd]. by rewrite (mountAttempts_app {| ext := x; calls := cs |}).
    + unfold List, external. cbn [ext calls].
      destruct (fsops_List _ _ x1) as [[entries [err|]] x2]; cbn [snd];
        rewrite <- app_assoc;
        by rewrite (mountAttempts_app {| ext := x; calls := cs |}).
  - intros versions. by rewrite Hrun.
  - by intros err ->.
Qed.

(** C4. Whenever the mount-point check reports the directory mounted, [mount]
    makes no mount attempt, returns no error, and hands the driver back
    unchanged, its [mountOptions] included. *)
Theorem mounted_short_circuit b w x0 :
  util_EnsureMountPoint KIND (mountDir b) (ext w) = ((true, None), x0) →
  mount b w =
  ((None, b),
   {| ext := x0; calls := calls w ++ [CallEnsureMountPoint KIND (mountDir b)] |}) ∧
  mountAttempts (mount b w).2 = mountAttempts w ∧
  mountOptions (mount b w).1.2 = mountOptions b.
Proof.
  intros Hcheck. destruct w as [x cs]. cbn [ext calls] in *.
  assert (mount b {| ext := x; calls := cs |} =
          ((None, b),
           {| ext := x0; calls := cs ++ [CallEnsureMountPoint KIND (mountDir b)] |})) as ->.
  { unfold mount, mount_with, mbind, M_bind. by rewrite run_EnsureMountPoint, Hcheck. }
  split_and!; [done| |done].
  cbn [snd]. rewrite (mountAttempts_app {| ext := x; calls := cs |}).
  by rewrite app_nil_r.
Qed.

(** C6. The driver of a successful initialisation has [serverPath] equal to
    the host followed directly by the path, and [GetURL] returns "nfs://"
    followed by that [serverPath]; for host "fileserver:" and path
    "/exports/backups" this is "nfs://fileserver:/exports/backups",
    whatever the query was. *)
Theorem GetURL_is_scheme_and_serverPath d u w b w' :
  url_Parse d = inr u → initFunc d w = (inr b, w') →
  serverPath b = Host u +:+ Path u ∧
  GetURL b = "nfs://" +:+ serverPath b ∧
  (Host u = "fileserver:" → Path u = "/exports/backups" →
   GetURL b = "nfs://fileserver:/exports/backups").
Proof.
  intros Hparse Hinit.
  destruct (initFunc_inr d u w b w' Hparse Hinit) as (_ & _ & _ & Hd & Hsp & _).
  unfold GetURL. rewrite Hd, Hsp. cbn [resolve destURL serverPath].
  split_and!; [done..|]. by intros -> ->.
Qed.

(** C7. For a parsed descriptor of this driver's scheme, an empty host makes
    initialisation fail with the missing-host error, and (the host being
    there) an empty path makes it fail with the missing-path error; the two
    errors differ, no call leaves the package, so nothing is mounted, and no
    driver is returned. *)
Theorem missing_host_or_path_rejected d u w :
  url_Parse d = inr u → Scheme u = KIND →
  (Host u = "" → initFunc d w = (inl errMissingHost, w)) ∧
  (Host u ≠ "" → Path u = "" → initFunc d w = (inl errMissingPath, w)) ∧
  errMissingHost ≠ errMissingPath ∧
  Error errMissingHost =
    "NFS path must follow format: nfs://<server-address>:/<share-name>/" ∧
  Error errMissingPath = "cannot find nfs path".
Proof.
  intros Hparse Hscheme. split_and!; [| |done..].
  - intros Hhost. unfold initFunc. rewrite Hparse.
    rewrite bool_decide_false by (by intros ?). by rewrite bool_decide_true.
  - intros Hhost Hpath. unfold initFunc. rewrite Hparse.
    rewrite bool_decide_false by (by intros ?).
    rewrite bool_decide_false by done. by rewrite bool_decide_true.
Qed.

(** C9. The fallback loop stores each candidate's options in the driver
    before the attempt.  When no options are pinned, the mount point is
    found not mounted and all three versions fail, [mount] returns the
    driver holding the options of "4.0", not the empty list it was called
    with, and the error of [initFunc] names those options. *)
Theorem failed_fallback_keeps_last_options d u w x0 errs x3 :
  url_Parse d = inr u → Scheme u = KIND → Host u ≠ "" → Path u ≠ "" →
  pinned u = [] →
  let b := resolve u in
  let b' := set_mountOptions b (versionOptions "4.0") in
  util_EnsureMountPoint KIND (mountDir b) (ext w) = ((false, None), x0) →
  failures b MinorVersions x0 = Some (errs, x3) →
  ∃ err w',
    mount b w = ((Some err, b'), w') ∧
    calls w' = calls w ++ [ CallEnsureMountPoint KIND (mountDir b);
                            attempt b (versionOptions "4.2");
                            attempt b (versionOptions "4.1");
                            attempt b (versionOptions "4.0") ] ∧
    mountOptions b = [] ∧
    mountOptions b' = ["nfsvers=4.0"; "actimeo=1"; "soft"; "timeo=30"; "retry=2"] ∧
    initFunc d w =
    (inl (errors_Wrapf err
            ("cannot mount nfs " +:+ (Host u +:+ Path u)
             +:+ ", options [nfsvers=4.0 actimeo=1 soft timeo=30 retry=2]")), w').
Proof.
  intros Hparse Hscheme Hhost Hpath Hpinned b b' Hcheck Hfail.
  apply failures_StepsFail in Hfail. destruct w as [x cs]. cbn [ext calls] in *.
  assert (mount b {| ext := x; calls := cs |} =
    ((Some (wrapEntries (errors_New "cannot mount using NFSv4") MinorVersions errs), b'),
     {| ext := x3;
        calls := cs ++ CallEnsureMountPoint KIND (mountDir b) ::
                 ((attempt b ∘ versionOptions) <$> MinorVersions) |})) as Hrun.
  { unfold mount. rewrite (mount_with_unpinned _ b x x0) by done.
    rewrite (stepDown_all_fail _ b x0 errs x3) by done.
    by rewrite <- app_assoc. }
  eexists _, _. split; [exact Hrun|]. split_and!; [done..|].
  rewrite (initFunc_parsed d u) by done. rewrite Hpinned.
  change (set_mountOptions (resolve u) []) with b. rewrite Hrun. reflexivity.
Qed.

End claims.

(** ** The mount directory and the local paths *)

Section path_claims.
Context {W : Type} `{!Imports W}.
Import filepath.
Implicit Types (b : BackupStoreDriver) (w : World W) (u : URL) (h : string).

Lemma TrimSuffix1_kept h : EndsWith h ":" = false → strings.TrimSuffix1 h ":" = h.
Proof.
  induction h as [|c h IH]; [done|]. destruct h as [|d h].
  - simpl. intros Hc. by rewrite Hc.
  - intros Hend. change (strings.TrimSuffix1 (String c (String d h)) ":")
      with (String c (strings.TrimSuffix1 (String d h) ":")).
    by rewrite IH.
Qed.

Lemma TrimSuffix1_colon h : strings.TrimSuffix1 (h +:+ ":") ":" = h.
Proof.
  induction h as [|c h IH]; [done|]. rewrite app_cons.
  destruct h as [|d h]; [done|]. rewrite app_cons in *.
  change (strings.TrimSuffix1 (String c (String d ?s)) ":")
    with (String c (strings.TrimSuffix1 (String d s) ":")).
  by rewrite IH.
Qed.

(** C5, as the code has it. The mount directory of an initialised driver is
    [filepath.Join] of the root mount directory, the sanitised host and the
    remote path, where the sanitised host is the host with every [.]
    replaced by [_] and then all of its trailing [:] removed; it is the
    host with a single trailing [:] removed unless two or more colons
    end the host. *)
Theorem mountDir_from_sanitised_host d u w b w' :
  url_Parse d = inr u → initFunc d w = (inr b, w') →
  ∃ h n,
    underscored (Host u) = h +:+ colons n ∧ EndsWith h ":" = false ∧
    mountDir b = filepath.Join [util_MountDir; h; Path u] ∧
    (n ≤ 1 → h = sanitize_spec (Host u))%nat.
Proof.
  intros Hparse Hinit.
  destruct (initFunc_inr d u w b w' Hparse Hinit) as (_ & _ & _ & _ & _ & ->).
  cbn [resolve mountDir]. rewrite Replace_dots.
  destruct (TrimRight_colons (underscored (Host u))) as (n & Hn & Hend).
  exists (strings.TrimRight (underscored (Host u)) ":"), n.
  split_and!; [done..|].
  intros Hle. unfold sanitize_spec. rewrite Hn at 2.
  destruct n as [|[|n]]; [| |lia].
  - by rewrite app_empty_r, TrimSuffix1_kept.
  - by rewrite TrimSuffix1_colon.
Qed.

(** C8. For an initialised driver, [LocalPath] is [filepath.Join] of the
    mount directory and the relative path: a function of these two strings
    alone, which reads and changes nothing of the world; it is the cleaned
    [mountDir/relativePath], and for "foo/bar" it is the mount directory
    followed by "/foo/bar" (just "/foo/bar" below the root "/", and
    "foo/bar" below "."). *)
Theorem LocalPath_joins_mountDir d w b w' :
  initFunc d w = (inr b, w') →
  (∀ rel, LocalPath b rel = filepath.Join [mountDir b; rel]) ∧
  (∀ rel, LocalPath b rel = Clean (mountDir b +:+ "/" +:+ rel)) ∧
  (∀ b' rel, mountDir b' = mountDir b → LocalPath b' rel = LocalPath b rel) ∧
  (mountDir b ≠ "/" → mountDir b ≠ "." →
   LocalPath b "foo/bar" = mountDir b +:+ "/foo/bar") ∧
  (mountDir b = "/" → LocalPath b "foo/bar" = "/foo/bar") ∧
  (mountDir b = "." → LocalPath b "foo/bar" = "foo/bar").
Proof.
  intros Hinit.
  destruct (mountDir_rendered d w b w' Hinit) as (rooted & out & Hout & Hdir).
  split_and!.
  - done.
  - intros rel. unfold LocalPath. cbn [filepath.Join].
    rewrite bool_decide_false; [done|].
    rewrite Hdir. by apply render_nonempty.
  - intros b' rel Heq. unfold LocalPath. by rewrite Heq.
  - intros Hroot Hdot.
    assert (written out ≠ []) as Hw.
    { intros Hw. rewrite Hdir, (render_start rooted out Hw) in Hroot, Hdot.
      by destruct rooted. }
    assert (real "foo" ∧ real "bar") as [Hfoo Hbar] by by split.
    rewrite (LocalPath_rendered b rooted out) by done.
    change (strings.Split1 "foo/bar" Separator) with ["foo"; "bar"].
    cbn [fold_left]. rewrite !step_real by done. cbn [dotdot elems].
    rewrite (render_push rooted {| dotdot := dotdot out; elems := "foo" :: elems out |})
      by (by apply reachable_push || apply written_push).
    rewrite (render_push rooted out) by done.
    rewrite <- Hdir. by rewrite !app_assoc_string.
  - intros Heq. unfold LocalPath. by rewrite Heq.
  - intros Heq. unfold LocalPath. by rewrite Heq.
Qed.

(** C10. [LocalPath] does not keep its result below the mount directory:
    for an initialised driver with an absolute mount directory other than
    "/", the relative path ".." gives a cleaned absolute path that is
    neither the mount directory nor below it. *)
Theorem LocalPath_escapes_mountDir d w b w' :
  initFunc d w = (inr b, w') →
  IsRooted (mountDir b) = true → mountDir b ≠ "/" →
  IsRooted (LocalPath b "..") = true ∧
  Clean (LocalPath b "..") = LocalPath b ".." ∧
  ¬ Within (mountDir b) (LocalPath b "..").
Proof.
  intros Hinit Hrooted Hroot.
  destruct (mountDir_rendered d w b w' Hinit) as (rooted & out & Hout & Hdir).
  assert (rooted = true) as ->.
  { by rewrite Hdir, IsRooted_render in Hrooted. }
  destruct out as [n es]. pose proof Hout as [Hreal Hn]. cbn [dotdot elems] in *.
  rewrite Hn in * by done.
  destruct es as [|e rest].
  { by rewrite Hdir in Hroot. }
  assert (reachable true {| dotdot := 0; elems := rest |}) as Hrest.
  { split; [by inversion Hreal|done]. }
  assert (LocalPath b ".." = render true {| dotdot := 0; elems := rest |}) as ->.
  { by rewrite (LocalPath_rendered b true {| dotdot := 0; elems := e :: rest |}). }
  split_and!.
  - by apply IsRooted_render.
  - by apply Clean_render.
  - assert (String.length (render true {| dotdot := 0; elems := rest |})
            < String.length (mountDir b))%nat as Hshort.
    { rewrite Hdir. unfold render, written. cbn [dotdot elems replicate app].
      rewrite reverse_cons, !length_app_string.
      assert (e ≠ "") as He by (inversion Hreal as [|? ? [? _] _]; done).
      destruct (reverse rest) as [|a l] eqn:Hrev.
      - destruct e; [done|]. simpl. lia.
      - rewrite <- Hrev, Join_snoc by (by rewrite Hrev).
        rewrite !length_app_string. simpl. lia. }
    intros [Heq|Hprefix].
    + rewrite Heq in Hshort. lia.
    + apply HasPrefix_length in Hprefix. rewrite length_app_string in Hprefix. lia.
Qed.

End path_claims.

(** * The statements on the scripted machine *)

Section scenarios.
Import Scenario.

Lemma fallback_stops_at_first_success_witness :
  mount (resolve plainURL) (boot (fresh [Some "no such version"; None])) =
  ((None, set_mountOptions (resolve plainURL) (versionOptions "4.1")),
   {| ext := up;
      calls :=
        [ CallEnsureMountPoint "nfs" plainDir;
          CallMountWithTimeout "fileserver/exports/backups" plainDir "nfs4"
            ["nfsvers=4.2"; "actimeo=1"; "soft"; "timeo=30"; "retry=2"] []
            1000000000 5000000000;
          CallMountWithTimeout "fileserver/exports/backups" plainDir "nfs4"
            ["nfsvers=4.1"; "actimeo=1"; "soft"; "timeo=30"; "retry=2"] []
            1000000000 5000000000 ] |}).
Proof.
  exact (proj2 (proj2
    (@fallback_stops_at_first_success Machine imports (resolve plainURL)
       (fresh [Some "no such version"; None]) (fresh [Some "no such version"; None])
       [] ["4.2"] "4.1" ["4.0"] [errors_New "no such version"] (fresh [None]) up
       eq_refl eq_refl eq_refl eq_refl eq_refl))).
Defined.

Lemma fallback_failures_aggregated_witness :
  ∃ err b',
    mount (resolve plainURL) (boot (fresh [Some "e1"; Some "e2"; Some "e3"])) =
    ((Some err, b'),
     {| ext := down;
        calls := [ CallEnsureMountPoint "nfs" plainDir;
                   attempt (resolve plainURL) (versionOptions "4.2");
                   attempt (resolve plainURL) (versionOptions "4.1");
                   attempt (resolve plainURL) (versionOptions "4.0") ] |}) ∧
    wrapped err = ["vers=4.0: e3"; "vers=4.1: e2"; "vers=4.2: e1"] ∧
    Error err = "vers=4.0: e3: vers=4.1: e2: vers=4.2: e1: cannot mount using NFSv4".
Proof.
  destruct (@fallback_failures_aggregated Machine imports (resolve plainURL)
              (fresh [Some "e1"; Some "e2"; Some "e3"])
              (fresh [Some "e1"; Some "e2"; Some "e3"]) []
              [errors_New "e1"; errors_New "e2"; errors_New "e3"] down
              eq_refl eq_refl eq_refl) as (err & b' & Hrun & _ & Hwrapped & _ & Herror).
  exists err, b'. split; [exact Hrun|]. split; [exact Hwrapped|exact Herror].
Defined.

(** C2 as stated fails: with "e1", "e2", "e3" as the failures of "4.2",
    "4.1", "4.0", the entries of the returned error do not come in the
    declared order, in the message or along the unwrap chain. *)
Lemma aggregated_entries_not_in_declared_order :
  ∃ err b' w',
    mount (resolve plainURL) (boot (fresh [Some "e1"; Some "e2"; Some "e3"])) =
    ((Some err, b'), w') ∧
    Error err = "vers=4.0: e3: vers=4.1: e2: vers=4.2: e1: cannot mount using NFSv4" ∧
    wrapped err ≠
    zip_with entry MinorVersions [errors_New "e1"; errors_New "e2"; errors_New "e3"].
Proof.
  eexists _, _, _. split; [vm_compute; reflexivity|]. split; [reflexivity|]. discriminate.
Qed.

Lemma pinned_options_single_attempt_witness :
  mountAttempts (initFunc pinnedDescriptor (boot (fresh [Some "refused"]))).2 =
  [ CallMountWithTimeout "fileserver:/exports/backups" plainDir "nfs4"
      ["nfsvers=4.1"; "soft"] [] 1000000000 5000000000 ] ∧
  (initFunc pinnedDescriptor (boot (fresh [Some "refused"]))).1 =
  inl (errors_Wrapf
         (errors_Wrapf (errors_New "cannot mount using NFSv4")
            "nfsOptions=[nfsvers=4.1 soft] : refused")
         "cannot mount nfs fileserver:/exports/backups, options [nfsvers=4.1 soft]").
Proof.
  destruct (@pinned_options_single_attempt Machine imports pinnedDescriptor pinnedURL
              (boot (fresh [Some "refused"])) ["nfsvers=4.1,soft"]
              (fresh [Some "refused"]) down (Some (errors_New "refused"))
              eq_refl eq_refl ltac:(discriminate) ltac:(discriminate) eq_refl
              ltac:(discriminate) eq_refl eq_refl) as (Hattempts & _ & Herr).
  split; [exact Hattempts|exact (Herr (errors_New "refused") eq_refl)].
Defined.

Lemma mounted_short_circuit_witness :
  mount plainDriver (boot up) =
  ((None, plainDriver), {| ext := up; calls := [CallEnsureMountPoint "nfs" plainDir] |}).
Proof. exact (proj1 (@mounted_short_circuit Machine imports plainDriver (boot up) up eq_refl)). Defined.

Lemma GetURL_is_scheme_and_serverPath_witness :
  ∃ b w',
    initFunc pinnedDescriptor (boot (fresh [])) = (inr b, w') ∧
    GetURL b = "nfs://fileserver:/exports/backups".
Proof.
  eexists _, _. split; [vm_compute; reflexivity|].
  exact (proj2 (proj2
    (@GetURL_is_scheme_and_serverPath Machine imports pinnedDescriptor pinnedURL (boot (fresh [])) _ _
       eq_refl eq_refl)) eq_refl eq_refl).
Defined.

Lemma missing_host_or_path_rejected_witness :
  initFunc "nfs:///exports/backups" (boot (fresh [])) =
  (inl errMissingHost, boot (fresh [])) ∧
  initFunc "nfs://fileserver" (boot (fresh [])) =
  (inl errMissingPath, boot (fresh [])).
Proof.
  split.
  - exact (proj1
      (@missing_host_or_path_rejected Machine imports "nfs:///exports/backups"
         {| Scheme := "nfs"; Host := ""; Path := "/exports/backups"; RawQuery := "" |}
         (boot (fresh [])) eq_refl eq_refl) eq_refl).
  - exact (proj1 (proj2
      (@missing_host_or_path_rejected Machine imports "nfs://fileserver"
         {| Scheme := "nfs"; Host := "fileserver"; Path := ""; RawQuery := "" |}
         (boot (fresh [])) eq_refl eq_refl)) ltac:(discriminate) eq_refl).
Defined.

Lemma failed_fallback_keeps_last_options_witness :
  ∃ err w',
    mount (resolve plainURL) (boot (fresh [Some "e1"; Some "e2"; Some "e3"])) =
    ((Some err, set_mountOptions (resolve plainURL) (versionOptions "4.0")), w') ∧
    initFunc plainDescriptor (boot (fresh [Some "e1"; Some "e2"; Some "e3"])) =
    (inl (errors_Wrapf err
            "cannot mount nfs fileserver/exports/backups, options [nfsvers=4.0 actimeo=1 soft timeo=30 retry=2]"),
     w').
Proof.
  destruct (@failed_fallback_keeps_last_options Machine imports plainDescriptor plainURL
              (boot (fresh [Some "e1"; Some "e2"; Some "e3"]))
              (fresh [Some "e1"; Some "e2"; Some "e3"])
              [errors_New "e1"; errors_New "e2"; errors_New "e3"] down
              eq_refl eq_refl ltac:(discriminate) ltac:(discriminate) eq_refl
              eq_refl eq_refl) as (err & w' & Hrun & _ & _ & _ & Hinit).
  exists err, w'. split; [exact Hrun|exact Hinit].
Defined.

Lemma mountDir_from_sanitised_host_witness :
  ∃ b w',
    initFunc colonsDescriptor (boot (fresh [])) = (inr b, w') ∧
    ∃ h n,
      underscored "file.server::" = h +:+ colons n ∧ EndsWith h ":" = false ∧
      mountDir b = filepath.Join [util_MountDir; h; "/exports"] ∧
      (n ≤ 1 → h = sanitize_spec "file.server::")%nat.
Proof.
  eexists _, _. split; [vm_compute; reflexivity|].
  exact (@mountDir_from_sanitised_host Machine imports colonsDescriptor colonsURL (boot (fresh [])) _ _
           eq_refl eq_refl).
Defined.

(** C5 as stated fails: for the host "file.server::" the mount directory is
    built from "file_server", while removing a single trailing colon would
    leave "file_server:". *)
Lemma mountDir_drops_every_trailing_colon :
  ∃ b w',
    initFunc colonsDescriptor (boot (fresh [])) = (inr b, w') ∧
    mountDir b = "/var/lib/longhorn-backupstore-mounts/file_server/exports" ∧
    filepath.Join [util_MountDir; sanitize_spec (Host colonsURL); Path colonsURL] =
    "/var/lib/longhorn-backupstore-mounts/file_server:/exports" ∧
    mountDir b ≠
    filepath.Join [util_MountDir; sanitize_spec (Host colonsURL); Path colonsURL].
Proof.
  eexists _, _. split; [vm_compute; reflexivity|]. split; [reflexivity|]. split; [reflexivity|].
  discriminate.
Qed.

Lemma LocalPath_joins_mountDir_witness :
  ∃ b w',
    initFunc plainDescriptor (boot (fresh [])) = (inr b, w') ∧
    LocalPath b "foo/bar" =
    "/var/lib/longhorn-backupstore-mounts/fileserver/exports/backups/foo/bar".
Proof.
  eexists _, _. split; [vm_compute; reflexivity|].
  exact (proj1 (proj2 (proj2 (proj2
    (@LocalPath_joins_mountDir Machine imports plainDescriptor (boot (fresh [])) _ _
       eq_refl))))
    ltac:(discriminate) ltac:(discriminate)).
Defined.

Lemma LocalPath_escapes_mountDir_witness :
  ∃ b w',
    initFunc plainDescriptor (boot (fresh [])) = (inr b, w') ∧
    LocalPath b ".." = "/var/lib/longhorn-backupstore-mounts/fileserver/exports" ∧
    ¬ filepath.Within (mountDir b) (LocalPath b "..").
Proof.
  eexists _, _. split; [vm_compute; reflexivity|]. split; [reflexivity|].
  exact (proj2 (proj2
    (@LocalPath_escapes_mountDir Machine imports plainDescriptor (boot (fresh [])) _ _ eq_refl
       eq_refl ltac:(discriminate)))).
Defined.

(** Further up, [LocalPath] reaches any file of the machine. *)
Example LocalPath_reaches_etc :
  LocalPath plainDriver "../../../../../../etc/passwd" = "/etc/passwd".
Proof. reflexivity. Qed.

End scenarios.

(** * Further properties of the negotiation *)

Section negotiation_runs.
Context {W : Type} `{!Imports W}.
Implicit Types (b : BackupStoreDriver) (x : W) (cs : list Call) (w : World W) (u : URL).

(** From any state, either every attempt of the list fails, or there is a
    first one that succeeds. *)
Lemma failures_or_success b versions : ∀ x,
  (∃ errs x', failures b versions x = Some (errs, x')) ∨
  (∃ pre version post errs x1 x2,
     versions = pre ++ version :: post ∧
     failures b pre x = Some (errs, x1) ∧
     util_MountWithTimeout (serverPath b) (mountDir b) "nfs4" (versionOptions version) []
       defaultMountInterval defaultMountTimeout x1 = (None, x2)).
Proof.
  induction versions as [|v vs IH]; intros x; [left; by eexists _, _|].
  destruct (util_MountWithTimeout (serverPath b) (mountDir b) "nfs4" (versionOptions v) []
              defaultMountInterval defaultMountTimeout x) as [[e|] x1] eqn:Hv.
  - destruct (IH x1) as [(errs & x' & Hf)|(pre & v' & post & errs & x2 & x3 & -> & Hf & Hok)].
    + left. exists (e :: errs), x'. simpl. by rewrite Hv, Hf.
    + right. exists (v :: pre), v', post, (e :: errs), x2, x3.
      split_and!; [done| |done]. simpl. by rewrite Hv, Hf.
  - right. by exists [], v, vs, [], x, x1.
Qed.

(** The five ways a run of [mount] can go. *)
Lemma mount_with_cases versions b x cs :
  let run := mount_with versions b {| ext := x; calls := cs |} in
  let check := CallEnsureMountPoint KIND (mountDir b) in
  (∃ mounted err x0,
     util_EnsureMountPoint KIND (mountDir b) x = ((mounted, Some err), x0) ∧
     run = ((Some err, b), {| ext := x0; calls := cs ++ [check] |})) ∨
  (∃ x0,
     util_EnsureMountPoint KIND (mountDir b) x = ((true, None), x0) ∧
     run = ((None, b), {| ext := x0; calls := cs ++ [check] |})) ∨
  (∃ x0 r x1,
     util_EnsureMountPoint KIND (mountDir b) x = ((false, None), x0) ∧
     mountOptions b ≠ [] ∧
     util_MountWithTimeout (serverPath b) (mountDir b) "nfs4" (mountOptions b) []
       defaultMountInterval defaultMountTimeout x0 = (r, x1) ∧
     run =
     ((match r with
       | None => None
       | Some err =>
           Some (errors_Wrapf (errors_New "cannot mount using NFSv4")
                   ("nfsOptions=" +:+ fmt_v (mountOptions b) +:+ " : " +:+ Error err))
       end, b),
      {| ext := x1; calls := cs ++ [check; attempt b (mountOptions b)] |})) ∨
  (∃ x0 errs x1,
     util_EnsureMountPoint KIND (mountDir b) x = ((false, None), x0) ∧
     mountOptions b = [] ∧
     failures b versions x0 = Some (errs, x1) ∧
     run =
     ((Some (wrapEntries (errors_New "cannot mount using NFSv4") versions errs),
       set_mountOptions b (default (mountOptions b) (last (versionOptions <$> versions)))),
      {| ext := x1;
         calls := cs ++ check :: ((attempt b ∘ versionOptions) <$> versions) |})) ∨
  (∃ x0 pre version post errs x1 x2,
     util_EnsureMountPoint KIND (mountDir b) x = ((false, None), x0) ∧
     mountOptions b = [] ∧
     versions = pre ++ version :: post ∧
     failures b pre x0 = Some (errs, x1) ∧
     util_MountWithTimeout (serverPath b) (mountDir b) "nfs4" (versionOptions version) []
       defaultMountInterval defaultMountTimeout x1 = (None, x2) ∧
     run =
     ((None, set_mountOptions b (versionOptions version)),
      {| ext := x2;
         calls := cs ++ check :: ((attempt b ∘ versionOptions) <$> (pre ++ [version])) |})).
Proof.
  intros run check. subst run check.
  destruct (util_EnsureMountPoint KIND (mountDir b) x) as [[mounted [err|]] x0] eqn:Hcheck.
  { left. exists mounted, err, x0. split; [done|].
    unfold mount_with, mbind, M_bind. by rewrite run_EnsureMountPoint, Hcheck. }
  destruct mounted.
  { right; left. exists x0. split; [done|].
    unfold mount_with, mbind, M_bind. by rewrite run_EnsureMountPoint, Hcheck. }
  destruct (decide (mountOptions b = [])) as [Hopts|Hopts].
  - do 3 right. rewrite (mount_with_unpinned versions b x x0) by done.
    destruct (failures_or_success b versions x0)
      as [(errs & x1 & Hf)|(pre & v & post & errs & x1 & x2 & -> & Hf & Hok)].
    + left. exists x0, errs, x1. split_and!; [done..|].
      rewrite (stepDown_all_fail _ b x0 errs x1) by by apply failures_StepsFail.
      by rewrite <- app_assoc.
    + right. exists x0, pre, v, post, errs, x1, x2. split_and!; [done..|].
      rewrite (stepDown_first_success pre v post b x0 errs x1 x2)
        by eauto using failures_StepsFail.
      by rewrite <- app_assoc.
  - right; right; left.
    destruct (util_MountWithTimeout (serverPath b) (mountDir b) "nfs4" (mountOptions b) []
                defaultMountInterval defaultMountTimeout x0) as [r x1] eqn:Hmount.
    exists x0, r, x1. split_and!; [done..|].
    by apply (mount_with_pinned versions b x x0 x1 r cs).
Qed.

End negotiation_runs.

Section negotiation_extras.
Context {W : Type} `{!Imports W}.
Implicit Types (b : BackupStoreDriver) (x : W) (cs : list Call) (w : World W) (u : URL).

(** The option lists [mount] may try for a driver: the pinned one alone, or
    one per version. *)
Lemma mount_with_tried versions b w :
  ∃ tried,
    calls (mount_with versions b w).2 =
    calls w ++ CallEnsureMountPoint KIND (mountDir b) :: (attempt b <$> tried) ∧
    tried `prefix_of`
      match mountOptions b with
      | [] => versionOptions <$> versions
      | _ => [mountOptions b]
      end.
Proof.
  destruct w as [x cs].
  destruct (mount_with_cases versions b x cs)
    as [(m & e & x0 & _ & ->)|[(x0 & _ & ->)|[(x0 & r & x1 & _ & Hopts & _ & ->)|
        [(x0 & errs & x1 & _ & Hopts & _ & ->)|
         (x0 & pre & v & post & errs & x1 & x2 & _ & Hopts & -> & _ & _ & ->)]]]];
    cbn [snd calls].
  - exists []. split; [done|]. apply prefix_nil.
  - exists []. split; [done|]. apply prefix_nil.
  - exists [mountOptions b]. split; [done|]. by destruct (mountOptions b).
  - exists (versionOptions <$> versions). split; [by rewrite <- list_fmap_compose|].
    by rewrite Hopts.
  - exists (versionOptions <$> (pre ++ [v])). split; [by rewrite <- list_fmap_compose|].
    rewrite Hopts, !fmap_app. apply prefix_app, prefix_cons, prefix_nil.
Qed.

Lemma filter_attempts b (tried : list (list string)) :
  filter (λ c, isMountAttempt c = true) (attempt b <$> tried) = attempt b <$> tried.
Proof.
  induction tried as [|o tried IH]; [done|].
  rewrite fmap_cons, filter_cons_True by done. by rewrite IH.
Qed.

(** The calls of an initialisation: none when the descriptor is refused,
    otherwise the check, the attempts, and the listing when the mount
    succeeded. *)
Lemma initFunc_calls d w :
  calls (initFunc d w).2 = calls w ∨
  ∃ u tried listed,
    url_Parse d = inr u ∧ Scheme u = KIND ∧ Host u ≠ "" ∧ Path u ≠ "" ∧
    let b := set_mountOptions (resolve u) (pinned u) in
    calls (initFunc d w).2 =
    calls w ++ CallEnsureMountPoint KIND (mountDir b) :: (attempt b <$> tried) ++ listed ∧
    tried `prefix_of`
      match pinned u with
      | [] => versionOptions <$> MinorVersions
      | _ => [pinned u]
      end ∧
    (listed = [] ∨ listed = [CallList ""]).
Proof.
  destruct (url_Parse d) as [err|u] eqn:Hparse.
  { left. unfold initFunc. by rewrite Hparse. }
  destruct (decide (Scheme u = KIND)) as [Hscheme|Hscheme].
  2:{ left. unfold initFunc. rewrite Hparse. by rewrite bool_decide_true. }
  destruct (decide (Host u = "")) as [Hhost|Hhost].
  { left. unfold initFunc. rewrite Hparse.
    rewrite bool_decide_false by (by intros ?). by rewrite bool_decide_true. }
  destruct (decide (Path u = "")) as [Hpath|Hpath].
  { left. unfold initFunc. rewrite Hparse.
    rewrite bool_decide_false by (by intros ?).
    rewrite bool_decide_false by done. by rewrite bool_decide_true. }
  right. exists u.
  destruct (mount_with_tried MinorVersions (set_mountOptions (resolve u) (pinned u)) w)
    as (tried & Hcalls & Hprefix).
  fold mount in Hcalls. cbn [mountOptions set_mountOptions] in Hprefix.
  rewrite (initFunc_parsed d u w) by done.
  destruct (mount _ w) as [[[err|] b1] w1]; cbn [snd] in *.
  - exists tried, []. rewrite app_nil_r. split_and!; [done..| |done|by left].
    exact Hcalls.
  - unfold List, external.
    destruct (fsops_List _ _ (ext w1)) as [[entries [err|]] x2]; cbn [snd calls];
      exists tried, [CallList ""]; (split_and!; [done..| |done|by right]);
      cbn zeta; rewrite Hcalls, <- app_assoc; reflexivity.
Qed.

(** X1. A descriptor that does not parse is refused with the parser's own
    error, and one of another scheme with the dispatch error, whatever its
    host and path; in both cases nothing outside the package is called.  A
    descriptor that passes the four checks always starts with the
    mount-point check of its derived mount directory. *)
Theorem refusals_precede_every_call d w :
  (∀ err, url_Parse d = inl err → initFunc d w = (inl err, w)) ∧
  (∀ u, url_Parse d = inr u → Scheme u ≠ KIND →
     initFunc d w =
     (inl (errors_New ("BUG: Why dispatch " +:+ Scheme u +:+ " to nfs?")), w)) ∧
  (∀ u, url_Parse d = inr u → Scheme u = KIND → Host u ≠ "" → Path u ≠ "" →
     ∃ rest,
       calls (initFunc d w).2 =
       calls w ++ CallEnsureMountPoint KIND (mountDir (resolve u)) :: rest).
Proof.
  split_and!.
  - intros err Hparse. unfold initFunc. by rewrite Hparse.
  - intros u Hparse Hscheme. unfold initFunc. rewrite Hparse.
    by rewrite bool_decide_true.
  - intros u Hparse Hscheme Hhost Hpath.
    destruct (initFunc_calls d w)
      as [Hnone|(u' & tried & listed & Hparse' & _ & _ & _ & Hcalls & _)].
    + exfalso. rewrite (initFunc_parsed d u w) in Hnone by done.
      destruct (mount_with_tried MinorVersions
                  (set_mountOptions (resolve u) (pinned u)) w) as (tried & Hcalls & _).
      fold mount in Hcalls.
      destruct (mount _ w) as [[[err|] b1] w1]; cbn [snd] in *.
      * rewrite Hcalls in Hnone. apply (f_equal length) in Hnone.
        rewrite length_app in Hnone. simpl in Hnone. lia.
      * unfold List, external in Hnone.
        destruct (fsops_List _ _ (ext w1)) as [[entries [err|]] x2];
          cbn [snd calls] in Hnone; rewrite Hcalls in Hnone;
          apply (f_equal length) in Hnone; rewrite !length_app in Hnone;
          simpl in Hnone; lia.
    + rewrite Hparse in Hparse'. injection Hparse' as <-.
      eexists. exact Hcalls.
Qed.

(** X2. An initialisation makes at most three mount attempts, whatever the
    descriptor and the machine, and at most one when the descriptor pins
    its options. *)
Theorem initFunc_attempts_bounded d w :
  (length (mountAttempts (initFunc d w).2) ≤ length (mountAttempts w) + 3)%nat ∧
  (∀ u, url_Parse d = inr u → pinned u ≠ [] →
     (length (mountAttempts (initFunc d w).2) ≤ length (mountAttempts w) + 1)%nat).
Proof.
  assert (∀ u tried listed,
    let b := set_mountOptions (resolve u) (pinned u) in
    calls (initFunc d w).2 =
    calls w ++ CallEnsureMountPoint KIND (mountDir b) :: (attempt b <$> tried) ++ listed →
    (listed = [] ∨ listed = [CallList ""]) →
    length (mountAttempts (initFunc d w).2) =
    (length (mountAttempts w) + length tried)%nat) as Hcount.
  { intros u tried listed b Hcalls Hlisted. unfold mountAttempts. rewrite Hcalls.
    rewrite filter_app, filter_cons_False by (by intros ?).
    rewrite filter_app, filter_attempts.
    rewrite !length_app, length_fmap.
    destruct Hlisted as [-> | ->]; simpl; lia. }
  destruct (initFunc_calls d w)
    as [Hnone|(u & tried & listed & Hparse & _ & _ & _ & Hcalls & Hprefix & Hlisted)].
  { unfold mountAttempts. rewrite Hnone. split; [lia|]. intros; lia. }
  apply prefix_length in Hprefix.
  rewrite (Hcount u tried listed Hcalls Hlisted). split.
  - destruct (pinned u); simpl in Hprefix; lia.
  - intros u' Hparse' Hpinned. rewrite Hparse in Hparse'. injection Hparse' as <-.
    destruct (pinned u); [done|]. simpl in Hprefix. lia.
Qed.

End negotiation_extras.

Section mount_extras.
Context {W : Type} `{!Imports W}.
Implicit Types (b : BackupStoreDriver) (x : W) (cs : list Call) (w : World W) (u : URL).

(** X3. On every machine, what [mount] calls is the mount-point check of
    the mount directory followed only by mount attempts from the server
    path to the mount directory, of type "nfs4", without sensitive
    options, with the default interval and timeout; their option lists are
    an initial part of the candidates, which are the pinned list alone or
    the lists of the versions in order. *)
Theorem mount_tries_candidates_in_order versions b w :
  ∃ tried,
    calls (mount_with versions b w).2 =
    calls w ++ CallEnsureMountPoint KIND (mountDir b) ::
      ((λ options, CallMountWithTimeout (serverPath b) (mountDir b) "nfs4" options []
                     (1 * Second) (5 * Second)) <$> tried) ∧
    tried `prefix_of`
      match mountOptions b with
      | [] => versionOptions <$> versions
      | _ => [mountOptions b]
      end.
Proof. exact (mount_with_tried versions b w). Qed.

(** X4. When [mount] returns no error, either nothing was attempted and the
    driver is as before (the directory was mounted already), or the last
    call is a mount attempt made with exactly the options the returned
    driver holds. *)
Theorem mount_success_holds_last_options versions b w b' w' :
  mount_with versions b w = ((None, b'), w') →
  (b' = b ∧ calls w' = calls w ++ [CallEnsureMountPoint KIND (mountDir b)]) ∨
  (∃ failed,
     calls w' =
     calls w ++ CallEnsureMountPoint KIND (mountDir b) ::
       (attempt b <$> failed) ++ [attempt b (mountOptions b')]).
Proof.
  destruct w as [x cs]. intros Hrun.
  destruct (mount_with_cases versions b x cs)
    as [(m & e & x0 & _ & Heq)|[(x0 & _ & Heq)|[(x0 & r & x1 & _ & Hopts & _ & Heq)|
        [(x0 & errs & x1 & _ & Hopts & _ & Heq)|
         (x0 & pre & v & post & errs & x1 & x2 & _ & Hopts & -> & _ & _ & Heq)]]]];
    cbn zeta in Heq; rewrite Heq in Hrun.
  - discriminate Hrun.
  - injection Hrun as <- <-. by left.
  - destruct r as [e|]; [discriminate Hrun|]. injection Hrun as <- <-.
    right. by exists [].
  - discriminate Hrun.
  - injection Hrun as <- <-. right. exists (versionOptions <$> pre).
    cbn [calls mountOptions set_mountOptions].
    by rewrite fmap_app, <- list_fmap_compose.
Qed.

(** X5. When the directory is not mounted and [mount] returns an error,
    every candidate was attempted, in order, and the error holds one
    wrapped entry per candidate around the root cause "cannot mount using
    NFSv4". *)
Theorem mount_error_after_every_candidate versions b w x0 err b' w' :
  util_EnsureMountPoint KIND (mountDir b) (ext w) = ((false, None), x0) →
  mount_with versions b w = ((Some err, b'), w') →
  let candidates :=
    match mountOptions b with
    | [] => versionOptions <$> versions
    | _ => [mountOptions b]
    end in
  calls w' =
  calls w ++ CallEnsureMountPoint KIND (mountDir b) :: (attempt b <$> candidates) ∧
  Cause err = errors_New "cannot mount using NFSv4" ∧
  length (wrapped err) = length candidates.
Proof.
  destruct w as [x cs]. cbn [ext calls]. intros Hcheck Hrun.
  destruct (mount_with_cases versions b x cs)
    as [(m & e & x0' & Hc & Heq)|[(x0' & Hc & Heq)|[(x0' & r & x1 & _ & Hopts & _ & Heq)|
        [(x0' & errs & x1 & _ & Hopts & Hf & Heq)|
         (x0' & pre & v & post & errs & x1 & x2 & _ & Hopts & -> & _ & _ & Heq)]]]];
    cbn zeta in Heq; rewrite Heq in Hrun.
  - rewrite Hcheck in Hc. discriminate Hc.
  - rewrite Hcheck in Hc. discriminate Hc.
  - destruct r as [e|]; [|discriminate Hrun]. injection Hrun as <- <- <-.
    cbn [calls]. by destruct (mountOptions b).
  - injection Hrun as <- <- <-. cbn [calls]. rewrite Hopts. cbn zeta.
    split_and!.
    + by rewrite <- list_fmap_compose.
    + by rewrite Cause_wrapEntries.
    + apply failures_StepsFail, StepsFail_length in Hf.
      rewrite wrapped_wrapEntries, app_nil_r, length_reverse, length_zip_with, length_fmap.
      lia.
  - discriminate Hrun.
Qed.

(** X6. [mount] changes the options of the driver only when it picks them:
    a driver with pinned options comes back as it was, and otherwise the
    driver comes back as it was or with the option list of one of the
    versions. *)
Theorem mount_options_pinned_or_versioned versions b w :
  (mountOptions b ≠ [] → (mount_with versions b w).1.2 = b) ∧
  ((mount_with versions b w).1.2 = b ∨
   ∃ version, version ∈ versions ∧
     (mount_with versions b w).1.2 = set_mountOptions b (versionOptions version)).
Proof.
  destruct w as [x cs].
  destruct (mount_with_cases versions b x cs)
    as [(m & e & x0 & _ & Heq)|[(x0 & _ & Heq)|[(x0 & r & x1 & _ & Hopts & _ & Heq)|
        [(x0 & errs & x1 & _ & Hopts & _ & Heq)|
         (x0 & pre & v & post & errs & x1 & x2 & _ & Hopts & -> & _ & _ & Heq)]]]];
    cbn zeta in Heq; rewrite Heq; cbn [fst snd].
  - split; [done|by left].
  - split; [done|by left].
  - split; [done|by left].
  - split; [done|].
    destruct (last (versionOptions <$> versions)) as [o|] eqn:Hlast; cbn [default].
    + right. rewrite fmap_last in Hlast.
      destruct (last versions) as [v|] eqn:Hv; [|done].
      injection Hlast as <-. exists v. split; [|done].
      apply last_Some in Hv as [l' ->]. apply elem_of_app. right. by left.
    + left. by rewrite set_mountOptions_id.
  - split; [done|]. right. exists v. split; [|done].
    apply elem_of_app. right. by left.
Qed.

End mount_extras.

Section initialisation_extras.
Context {W : Type} `{!Imports W}.
Implicit Types (b : BackupStoreDriver) (x : W) (cs : list Call) (w : World W) (u : URL).

(** X7. Whatever the machine answers, [mount] leaves the destination URL,
    the server path and the mount directory of the driver alone, so
    [GetURL] and [LocalPath] answer the same before and after. *)
Theorem mount_keeps_addresses versions b w :
  GetURL (mount_with versions b w).1.2 = GetURL b ∧
  serverPath (mount_with versions b w).1.2 = serverPath b ∧
  mountDir (mount_with versions b w).1.2 = mountDir b ∧
  ∀ path, LocalPath (mount_with versions b w).1.2 path = LocalPath b path.
Proof.
  destruct (mount_with_frame versions b w) as (Hd & Hsp & Hmd).
  split_and!; [done..|]. intros path. unfold LocalPath. by rewrite Hmd.
Qed.

(** X8. When the mount-point check itself fails, initialisation stops
    there: no mount is attempted and nothing is listed, even if the check
    also reports the directory mounted, and the error returned is the
    check's error wrapped with the server path and the pinned options. *)
Theorem check_error_stops_initialisation d u w mounted err x0 :
  url_Parse d = inr u → Scheme u = KIND → Host u ≠ "" → Path u ≠ "" →
  let b := set_mountOptions (resolve u) (pinned u) in
  util_EnsureMountPoint KIND (mountDir b) (ext w) = ((mounted, Some err), x0) →
  initFunc d w =
  (inl (errors_Wrapf err
          ("cannot mount nfs " +:+ (Host u +:+ Path u) +:+ ", options "
           +:+ fmt_v (pinned u))),
   {| ext := x0; calls := calls w ++ [CallEnsureMountPoint KIND (mountDir b)] |}).
Proof.
  intros Hparse Hscheme Hhost Hpath b Hcheck.
  rewrite (initFunc_parsed d u w) by done. fold b. destruct w as [x cs].
  unfold mount, mount_with, mbind, M_bind.
  rewrite run_EnsureMountPoint. cbn [ext] in Hcheck. by rewrite Hcheck.
Qed.

(** X9. Initialising against a share that is already mounted and whose
    root can be listed attempts no mount and returns a driver whose options
    are the pinned ones, hence empty when the descriptor pins none: the
    options the mount was made with are not recovered. *)
Theorem initialising_a_mounted_share d u w x0 entries x1 :
  url_Parse d = inr u → Scheme u = KIND → Host u ≠ "" → Path u ≠ "" →
  let b := set_mountOptions (resolve u) (pinned u) in
  util_EnsureMountPoint KIND (mountDir b) (ext w) = ((true, None), x0) →
  fsops_List (LocalPath b) "" x0 = ((entries, None), x1) →
  initFunc d w =
  (inr b,
   {| ext := x1;
      calls := calls w ++ [CallEnsureMountPoint KIND (mountDir b); CallList ""] |}) ∧
  mountOptions b = pinned u.
Proof.
  intros Hparse Hscheme Hhost Hpath b Hcheck Hlist.
  rewrite (initFunc_parsed d u w) by done. fold b. destruct w as [x cs].
  cbn [ext] in Hcheck. split; [|done].
  unfold mount, mount_with, mbind, M_bind.
  rewrite run_EnsureMountPoint, Hcheck.
  unfold mret, M_ret, List, external. cbn [ext calls].
  by rewrite Hlist, <- app_assoc.
Qed.

(** X10. When the mount succeeds but the root of the share cannot be
    listed, initialisation returns the listing error wrapped with the
    server path and no driver; the listing is its last call, so the share
    stays mounted. *)
Theorem unlistable_root_is_refused d u w b1 w1 entries err x2 :
  url_Parse d = inr u → Scheme u = KIND → Host u ≠ "" → Path u ≠ "" →
  mount (set_mountOptions (resolve u) (pinned u)) w = ((None, b1), w1) →
  fsops_List (LocalPath b1) "" (ext w1) = ((entries, Some err), x2) →
  initFunc d w =
  (inl (errors_Wrapf err
          ("NFS path " +:+ (Host u +:+ Path u)
           +:+ " doesn't exist or is not a directory")),
   {| ext := x2; calls := calls w1 ++ [CallList ""] |}).
Proof.
  intros Hparse Hscheme Hhost Hpath Hmount Hlist.
  rewrite (initFunc_parsed d u w) by done.
  destruct (mount_with_frame MinorVersions (set_mountOptions (resolve u) (pinned u)) w)
    as (_ & Hsp & _).
  fold mount in Hsp. rewrite Hmount in *. cbn [fst snd] in Hsp.
  unfold List, external. rewrite Hlist, Hsp. reflexivity.
Qed.

(** X11. A driver is returned only after the descriptor passed the four
    checks, [mount] returned no error for it, and the root of the share was
    listed without error, that listing being the last call; the driver
    returned is the one [mount] left. *)
Theorem driver_only_after_mount_and_listing d w b w' :
  initFunc d w = (inr b, w') →
  ∃ u w1 entries x2,
    url_Parse d = inr u ∧ Scheme u = KIND ∧ Host u ≠ "" ∧ Path u ≠ "" ∧
    mount (set_mountOptions (resolve u) (pinned u)) w = ((None, b), w1) ∧
    fsops_List (LocalPath b) "" (ext w1) = ((entries, None), x2) ∧
    w' = {| ext := x2; calls := calls w1 ++ [CallList ""] |}.
Proof.
  intros Hinit. destruct (initFunc_parses d w b w' Hinit) as [u Hparse].
  destruct (initFunc_inr d u w b w' Hparse Hinit) as (Hscheme & Hhost & Hpath & _).
  rewrite (initFunc_parsed d u w) in Hinit by done.
  destruct (mount _ w) as [[[err|] b1] w1] eqn:Hmount; [discriminate Hinit|].
  unfold List, external in Hinit.
  destruct (fsops_List (LocalPath b1) "" (ext w1)) as [[entries [err|]] x2] eqn:Hlist;
    [discriminate Hinit|].
  injection Hinit as <- <-. exists u, w1, entries, x2. by split_and!.
Qed.

End initialisation_extras.

(** * Further properties of the paths *)

Section path_extras.
Context {W : Type} `{!Imports W}.
Import filepath.
Implicit Types (b : BackupStoreDriver) (w : World W) (u : URL) (rel : string)
  (rooted : bool) (out : lazybuf).

Lemma Join_app (l1 l2 : list string) (sep : string) :
  l1 ≠ [] → l2 ≠ [] →
  strings.Join (l1 ++ l2) sep = strings.Join l1 sep +:+ sep +:+ strings.Join l2 sep.
Proof.
  induction l1 as [|a l1 IH]; [done|]. intros _ Hl2.
  destruct l1 as [|a' l1].
  - destruct l2 as [|e l2]; [done|]. reflexivity.
  - rewrite <- !app_comm_cons, !Join_cons_cons.
    rewrite <- !app_comm_cons in IH. rewrite IH by done.
    by rewrite !app_assoc_string.
Qed.

Lemma HasPrefix_app (s t : string) : strings.HasPrefix (s +:+ t) s = true.
Proof.
  induction s as [|c s IH]; [by destruct t|]. rewrite app_cons. simpl.
  by rewrite bool_decide_true, IH.
Qed.

Lemma contains_app (s t : string) (c : ascii) :
  strings.contains (s +:+ t) c = strings.contains s c || strings.contains t c.
Proof.
  induction s as [|d s IH]; [done|]. rewrite app_cons. simpl.
  by rewrite IH, orb_assoc.
Qed.

Lemma Split1_without (s : string) (c sep : ascii) :
  strings.contains s c = false →
  Forall (λ e, strings.contains e c = false) (strings.Split1 s sep).
Proof.
  induction s as [|d s IH]; [by repeat constructor|]. simpl.
  intros [Hd Hs]%orb_false_iff. apply bool_decide_eq_false in Hd. specialize (IH Hs).
  destruct (bool_decide (d = sep)); [by constructor|].
  destruct (strings.Split1 s sep) as [|h l].
  { constructor; [|done]. simpl. by rewrite bool_decide_false. }
  inversion IH as [|? ? Hh Hl]; subst. constructor; [|done].
  simpl. by rewrite bool_decide_false, Hh.
Qed.

(** Elements other than [..] only add real elements to the buffer. *)
Lemma fold_step_descends rooted (l : list string) : ∀ out,
  Forall (λ e, e ≠ "..") l →
  Forall (λ e, strings.contains e Separator = false) l →
  ∃ new, Forall real new ∧
    fold_left (step rooted) l out =
    {| dotdot := dotdot out; elems := new ++ elems out |}.
Proof.
  induction l as [|e l IH]; intros out Hup Hfree.
  { exists []. split; [done|]. by destruct out. }
  inversion Hup as [|? ? He Hup']; inversion Hfree as [|? ? Hf Hfree']; subst.
  cbn [fold_left].
  destruct (decide (e = "")) as [->|Hne].
  { apply (IH out); done. }
  destruct (decide (e = ".")) as [->|Hdot].
  { apply (IH out); done. }
  rewrite step_real by done.
  destruct (IH {| dotdot := dotdot out; elems := e :: elems out |} Hup' Hfree')
    as (new & Hnew & ->).
  exists (new ++ [e]). cbn [dotdot elems]. split.
  - apply Forall_app. split; [done|]. by repeat constructor.
  - by rewrite <- app_assoc.
Qed.

(** Adding real elements to a path other than [/] and [.] stays below it. *)
Lemma render_descends rooted out (new : list string) :
  reachable rooted out → written out ≠ [] → Forall real new →
  Within (render rooted out)
    (render rooted {| dotdot := dotdot out; elems := new ++ elems out |}).
Proof.
  intros Hout Hw Hnew.
  pose proof (written_nonempty rooted out Hout Hw) as Hbody.
  destruct new as [|e new]; [left; by destruct out|]. right.
  assert (written {| dotdot := dotdot out; elems := (e :: new) ++ elems out |}
          = written out ++ reverse (e :: new)) as Hwritten.
  { unfold written. cbn [dotdot elems]. by rewrite reverse_app, app_assoc. }
  unfold render. rewrite Hwritten.
  rewrite Join_app; [|done|].
  2:{ rewrite reverse_cons. by intros [_ ?]%app_eq_nil. }
  destruct rooted.
  - rewrite <- !app_assoc_string. apply HasPrefix_app.
  - rewrite (bool_decide_false (strings.Join (written out) "/" = "")) by done.
    rewrite bool_decide_false by (by intros [? _]%app_eq_empty).
    rewrite <- app_assoc_string. apply HasPrefix_app.
Qed.

(** Cleaning [path/rel] continues from the buffer of [path]. *)
Lemma Clean_continues (path rel : string) :
  path ≠ "" →
  Clean (path +:+ "/" +:+ rel) =
  render (IsRooted path)
    (fold_left (step (IsRooted path)) (strings.Split1 rel Separator)
       (fold_left (step (IsRooted path)) (strings.Split1 path Separator) start)).
Proof.
  intros Hpath. unfold Clean. destruct path as [|c path]; [done|].
  rewrite app_cons. rewrite bool_decide_false by done. cbn [IsRooted].
  rewrite <- app_cons. change ("/" +:+ rel) with (String Separator rel).
  by rewrite Split1_app, fold_left_app.
Qed.

(** X12. For an initialised driver, [LocalPath] of the empty path and of
    "." is the mount directory itself. *)
Theorem LocalPath_of_nothing_is_mountDir d w b w' :
  initFunc d w = (inr b, w') →
  LocalPath b "" = mountDir b ∧ LocalPath b "." = mountDir b.
Proof.
  intros Hinit.
  destruct (mountDir_rendered d w b w' Hinit) as (rooted & out & Hout & Hdir).
  by rewrite !(LocalPath_rendered b rooted out) by done.
Qed.

(** X13. For an initialised driver, every result of [LocalPath] is a cleaned
    path, absolute exactly when the mount directory is. *)
Theorem LocalPath_is_clean d w b w' rel :
  initFunc d w = (inr b, w') →
  Clean (LocalPath b rel) = LocalPath b rel ∧
  IsRooted (LocalPath b rel) = IsRooted (mountDir b).
Proof.
  intros Hinit.
  destruct (mountDir_rendered d w b w' Hinit) as (rooted & out & Hout & Hdir).
  rewrite (LocalPath_rendered b rooted out) by done. rewrite Hdir.
  assert (reachable rooted (fold_left (step rooted) (strings.Split1 rel Separator) out)).
  { apply fold_step_reachable; [apply Split1_elements_free|done]. }
  split; [by apply Clean_render|]. by rewrite !IsRooted_render.
Qed.

(** X14. For an initialised driver whose mount directory is neither "/"
    nor ".", a relative path none of whose elements is ".." is mapped to
    the mount directory or below it. *)
Theorem LocalPath_without_dotdot_stays_below d w b w' rel :
  initFunc d w = (inr b, w') →
  mountDir b ≠ "/" → mountDir b ≠ "." →
  Forall (λ elem, elem ≠ "..") (strings.Split1 rel Separator) →
  Within (mountDir b) (LocalPath b rel).
Proof.
  intros Hinit Hroot Hdot Hup.
  destruct (mountDir_rendered d w b w' Hinit) as (rooted & out & Hout & Hdir).
  assert (written out ≠ []) as Hw.
  { intros Hw. rewrite Hdir, (render_start rooted out Hw) in Hroot, Hdot.
    by destruct rooted. }
  rewrite (LocalPath_rendered b rooted out) by done. rewrite Hdir.
  destruct (fold_step_descends rooted (strings.Split1 rel Separator) out Hup
              (Split1_elements_free rel Separator)) as (new & Hnew & ->).
  by apply render_descends.
Qed.

(** X15. [LocalPath] composes: for an initialised driver, the local path of
    [rel1/rel2] is [filepath.Join] of the local path of [rel1] with
    [rel2]. *)
Theorem LocalPath_composes d w b w' rel1 rel2 :
  initFunc d w = (inr b, w') →
  LocalPath b (rel1 +:+ "/" +:+ rel2) = filepath.Join [LocalPath b rel1; rel2].
Proof.
  intros Hinit.
  destruct (mountDir_rendered d w b w' Hinit) as (rooted & out & Hout & Hdir).
  rewrite !(LocalPath_rendered b rooted out) by done.
  assert (reachable rooted (fold_left (step rooted) (strings.Split1 rel1 Separator) out))
    as Hout1.
  { apply fold_step_reachable; [apply Split1_elements_free|done]. }
  cbn [filepath.Join]. rewrite bool_decide_false by by apply render_nonempty.
  change (strings.Join [?a; ?c] (String Separator "")) with (a +:+ "/" +:+ c).
  rewrite (Clean_below rooted _ rel2 Hout1).
  change ("/" +:+ rel2) with (String Separator rel2).
  by rewrite Split1_app, fold_left_app.
Qed.

(** X16. A slash in front of the relative path or behind it changes
    nothing: for an initialised driver, a path that looks absolute is still
    taken relative to the mount directory. *)
Theorem LocalPath_ignores_outer_slashes d w b w' rel :
  initFunc d w = (inr b, w') →
  LocalPath b ("/" +:+ rel) = LocalPath b rel ∧
  LocalPath b (rel +:+ "/") = LocalPath b rel.
Proof.
  intros Hinit.
  destruct (mountDir_rendered d w b w' Hinit) as (rooted & out & Hout & Hdir).
  rewrite !(LocalPath_rendered b rooted out) by done. split.
  - change ("/" +:+ rel) with ("" +:+ String Separator rel).
    by rewrite Split1_app.
  - change (rel +:+ "/") with (rel +:+ String Separator "").
    by rewrite Split1_app, fold_left_app.
Qed.

End path_extras.

(** * Further properties of the mount directory *)

Section mountDir_extras.
Context {W : Type} `{!Imports W}.
Import filepath.
Implicit Types (b : BackupStoreDriver) (w : World W) (u : URL) (s h host : string) (n : nat).

Lemma underscored_dotless host : strings.contains (underscored host) "." = false.
Proof.
  induction host as [|c host IH]; [done|]. simpl. rewrite IH, orb_false_r.
  apply bool_decide_eq_false. case_bool_decide; [done|congruence].
Qed.

Lemma underscored_app s h : underscored (s +:+ h) = underscored s +:+ underscored h.
Proof. induction s as [|c s IH]; [done|]. rewrite app_cons. simpl. by rewrite IH. Qed.

Lemma underscored_colons n : underscored (colons n) = colons n.
Proof. induction n as [|n IH]; [done|]. simpl. by rewrite IH. Qed.

Lemma underscored_idempotent host : underscored (underscored host) = underscored host.
Proof.
  induction host as [|c host IH]; [done|]. simpl. rewrite IH. f_equal.
  repeat case_bool_decide; congruence.
Qed.

Lemma colons_add n m : colons n +:+ colons m = colons (n + m).
Proof. induction n as [|n IH]; [done|]. cbn [colons Nat.add]. by rewrite app_cons, IH. Qed.

Lemma TrimRight_more_colons s n :
  strings.TrimRight (s +:+ colons n) ":" = strings.TrimRight s ":".
Proof.
  destruct (TrimRight_colons s) as (k & Hs & Hend).
  destruct (TrimRight_colons (s +:+ colons n)) as (k' & Hs' & Hend').
  apply (colons_stem_unique _ _ k' (k + n)); [|done..].
  rewrite <- Hs'. rewrite Hs at 1. by rewrite app_assoc_string, colons_add.
Qed.

Lemma length_TrimRight s : (String.length (strings.TrimRight s ":") ≤ String.length s)%nat.
Proof.
  destruct (TrimRight_colons s) as (k & Hs & _). rewrite Hs at 2.
  rewrite length_app_string. lia.
Qed.

Lemma length_underscored host : String.length (underscored host) = String.length host.
Proof. induction host as [|c host IH]; [done|]. simpl. by rewrite IH. Qed.

Lemma dotless_not_dotdot (elem : string) :
  strings.contains elem "." = false → elem ≠ "..".
Proof. by intros Hfree ->. Qed.

Lemma sanitised_host_dotless host :
  strings.contains (strings.TrimRight (strings.Replace host "." "_" (-1)) ":") "." = false.
Proof.
  rewrite Replace_dots.
  destruct (TrimRight_colons (underscored host)) as (n & Hn & _).
  pose proof (underscored_dotless host) as Hfree.
  rewrite Hn, contains_app in Hfree. by apply orb_false_iff in Hfree as [? _].
Qed.

(** X17. The element that the host contributes to the mount directory never
    contains a ".", never ends in ":", and is no longer than the host. *)
Theorem host_element_is_dotless u :
  ∃ h,
    mountDir (resolve u) = filepath.Join [util_MountDir; h; Path u] ∧
    strings.contains h "." = false ∧
    EndsWith h ":" = false ∧
    (String.length h ≤ String.length (Host u))%nat.
Proof.
  exists (strings.TrimRight (strings.Replace (Host u) "." "_" (-1)) ":").
  split; [done|]. split; [apply sanitised_host_dotless|]. rewrite Replace_dots.
  destruct (TrimRight_colons (underscored (Host u))) as (n & Hn & Hend).
  split; [done|].
  etrans; [apply length_TrimRight|]. by rewrite length_underscored.
Qed.

(** X18. The mount directory does not tell hosts apart that differ only in
    "." against "_" or in trailing colons: writing the host with
    underscores and any number of colons behind it gives the same mount
    directory. *)
Theorem mountDir_shared_by_similar_hosts u n :
  mountDir
    (resolve {| Scheme := Scheme u; Host := underscored (Host u) +:+ colons n;
                Path := Path u; RawQuery := RawQuery u |}) =
  mountDir (resolve u).
Proof.
  cbn [resolve mountDir Host Path]. rewrite !Replace_dots.
  rewrite underscored_app, underscored_idempotent, underscored_colons.
  by rewrite TrimRight_more_colons.
Qed.

(** X19. When the cleaned root mount directory is neither "/" nor "." and
    no element of the remote path is "..", the mount directory of an
    initialised driver lies below the root mount directory. *)
Theorem mountDir_below_root d u w b w' :
  url_Parse d = inr u → initFunc d w = (inr b, w') →
  Clean util_MountDir ≠ "/" → Clean util_MountDir ≠ "." →
  Forall (λ elem, elem ≠ "..") (strings.Split1 (Path u) Separator) →
  Within (Clean util_MountDir) (mountDir b).
Proof.
  intros Hparse Hinit Hroot Hdot Hup.
  destruct (initFunc_inr d u w b w' Hparse Hinit) as (_ & _ & _ & _ & _ & ->).
  pose proof (sanitised_host_dotless (Host u)) as Hfree.
  set (h := strings.TrimRight (strings.Replace (Host u) "." "_" (-1)) ":") in *.
  assert (util_MountDir ≠ "") as Hne by (by intros Heq; rewrite Heq in Hdot).
  cbn [resolve mountDir]. fold h.
  cbn [filepath.Join]. rewrite bool_decide_false by done.
  change (strings.Join [?a; ?c; ?e] (String Separator ""))
    with (a +:+ "/" +:+ (c +:+ "/" +:+ e)).
  rewrite Clean_continues by done.
  set (rooted := IsRooted util_MountDir).
  set (out := fold_left (step rooted) (strings.Split1 util_MountDir Separator) start).
  assert (Clean util_MountDir = render rooted out) as Hclean.
  { unfold Clean. by rewrite bool_decide_false. }
  assert (reachable rooted out) as Hout.
  { apply fold_step_reachable; [apply Split1_elements_free|by split]. }
  assert (written out ≠ []) as Hw.
  { intros Hw. rewrite Hclean, (render_start rooted out Hw) in Hroot, Hdot.
    by destruct rooted. }
  rewrite Hclean.
  change ("/" +:+ Path u) with (String Separator (Path u)).
  rewrite Split1_app.
  destruct (fold_step_descends rooted
              (strings.Split1 h Separator ++ strings.Split1 (Path u) Separator) out)
    as (new & Hnew & ->).
  - apply Forall_app. split; [|done].
    eapply Forall_impl; [apply (Split1_without h "." Separator Hfree)|].
    intros e. apply dotless_not_dotdot.
  - apply Forall_app. split; apply Split1_elements_free.
  - by apply render_descends.
Qed.

End mountDir_extras.

(** * The further properties on the scripted machines *)

Section more_scenarios.
Import Scenario.

Lemma refusals_precede_every_call_witness :
  initFunc "fileserver/exports" (boot (fresh [])) =
  (inl (errors_New "parse fileserver/exports: missing protocol scheme"), boot (fresh [])) ∧
  initFunc "smb://fileserver/exports" (boot (fresh [])) =
  (inl (errors_New "BUG: Why dispatch smb to nfs?"), boot (fresh [])).
Proof.
  split.
  - exact (proj1 (@refusals_precede_every_call Machine imports "fileserver/exports"
                    (boot (fresh []))) _ eq_refl).
  - exact (proj1 (proj2 (@refusals_precede_every_call Machine imports
                           "smb://fileserver/exports" (boot (fresh []))))
             {| Scheme := "smb"; Host := "fileserver"; Path := "/exports"; RawQuery := "" |}
             eq_refl ltac:(discriminate)).
Defined.

Lemma initFunc_attempts_bounded_witness :
  (length (mountAttempts (initFunc pinnedDescriptor (boot (fresh [Some "refused"]))).2)
   ≤ length (mountAttempts (boot (fresh [Some "refused"]))) + 1)%nat.
Proof.
  exact (proj2 (@initFunc_attempts_bounded Machine imports pinnedDescriptor
                  (boot (fresh [Some "refused"])))
           pinnedURL eq_refl ltac:(vm_compute; discriminate)).
Defined.

Lemma mount_success_holds_last_options_witness :
  ∃ b' w',
    mount_with MinorVersions (resolve plainURL) (boot (fresh [Some "e1"; None])) =
    ((None, b'), w') ∧
    mountOptions b' = versionOptions "4.1" ∧
    ∃ failed,
      calls w' =
      CallEnsureMountPoint KIND plainDir ::
        (attempt (resolve plainURL) <$> failed) ++
        [attempt (resolve plainURL) (mountOptions b')].
Proof.
  eexists _, _. split; [vm_compute; reflexivity|]. split; [reflexivity|].
  destruct (@mount_success_holds_last_options Machine imports MinorVersions
              (resolve plainURL) (boot (fresh [Some "e1"; None])) _ _ eq_refl)
    as [[Hsame _]|Hlast].
  - discriminate Hsame.
  - exact Hlast.
Defined.

Lemma mount_error_after_every_candidate_witness :
  ∃ err b' w',
    mount_with MinorVersions (resolve plainURL)
      (boot (fresh [Some "e1"; Some "e2"; Some "e3"])) = ((Some err, b'), w') ∧
    calls w' =
    CallEnsureMountPoint KIND plainDir ::
      (attempt (resolve plainURL) <$> (versionOptions <$> MinorVersions)) ∧
    Cause err = errors_New "cannot mount using NFSv4" ∧
    length (wrapped err) = 3%nat.
Proof.
  eexists _, _, _. split; [vm_compute; reflexivity|].
  exact (@mount_error_after_every_candidate Machine imports MinorVersions
           (resolve plainURL) (boot (fresh [Some "e1"; Some "e2"; Some "e3"]))
           (fresh [Some "e1"; Some "e2"; Some "e3"]) _ _ _ eq_refl eq_refl).
Defined.

Lemma mount_options_pinned_or_versioned_witness :
  (mount_with MinorVersions plainDriver (boot (fresh [Some "refused"]))).1.2 = plainDriver.
Proof.
  exact (proj1 (@mount_options_pinned_or_versioned Machine imports MinorVersions
                  plainDriver (boot (fresh [Some "refused"])))
           ltac:(discriminate)).
Defined.

Lemma check_error_stops_initialisation_witness :
  @initFunc Machine Faulty.imports plainDescriptor (boot (fresh [])) =
  (inl (errors_Wrapf Faulty.checkError
          "cannot mount nfs fileserver/exports/backups, options []"),
   {| ext := fresh []; calls := [CallEnsureMountPoint "nfs" plainDir] |}).
Proof.
  exact (@check_error_stops_initialisation Machine Faulty.imports plainDescriptor plainURL
           (boot (fresh [])) false Faulty.checkError (fresh [])
           eq_refl eq_refl ltac:(discriminate) ltac:(discriminate) eq_refl).
Defined.

Lemma initialising_a_mounted_share_witness :
  initFunc plainDescriptor (boot up) =
  (inr (resolve plainURL),
   {| ext := up; calls := [CallEnsureMountPoint "nfs" plainDir; CallList ""] |}) ∧
  mountOptions (resolve plainURL) = [].
Proof.
  exact (@initialising_a_mounted_share Machine imports plainDescriptor plainURL
           (boot up) up [] up
           eq_refl eq_refl ltac:(discriminate) ltac:(discriminate) eq_refl eq_refl).
Defined.

Lemma unlistable_root_is_refused_witness :
  ∃ b1 w1,
    mount (resolve plainURL)
      (boot {| mounted := false; outcomes := []; listing := Some "no such directory" |}) =
    ((None, b1), w1) ∧
    initFunc plainDescriptor
      (boot {| mounted := false; outcomes := []; listing := Some "no such directory" |}) =
    (inl (errors_Wrapf (errors_New "no such directory")
            "NFS path fileserver/exports/backups doesn't exist or is not a directory"),
     {| ext := {| mounted := true; outcomes := []; listing := Some "no such directory" |};
        calls := calls w1 ++ [CallList ""] |}).
Proof.
  eexists _, _. split; [vm_compute; reflexivity|].
  exact (@unlistable_root_is_refused Machine imports plainDescriptor plainURL
           (boot {| mounted := false; outcomes := []; listing := Some "no such directory" |})
           _ _ [] (errors_New "no such directory")
           {| mounted := true; outcomes := []; listing := Some "no such directory" |}
           eq_refl eq_refl ltac:(discriminate) ltac:(discriminate) eq_refl eq_refl).
Defined.

Lemma driver_only_after_mount_and_listing_witness :
  ∃ b w',
    initFunc plainDescriptor (boot (fresh [])) = (inr b, w') ∧
    ∃ u w1 entries x2,
      Parse plainDescriptor = inr u ∧ Scheme u = KIND ∧ Host u ≠ "" ∧ Path u ≠ "" ∧
      mount (set_mountOptions (resolve u) (pinned u)) (boot (fresh [])) = ((None, b), w1) ∧
      fsops_List (LocalPath b) "" (ext w1) = ((entries, None), x2) ∧
      w' = {| ext := x2; calls := calls w1 ++ [CallList ""] |}.
Proof.
  eexists _, _. split; [vm_compute; reflexivity|].
  exact (@driver_only_after_mount_and_listing Machine imports plainDescriptor
           (boot (fresh [])) _ _ eq_refl).
Defined.

Lemma LocalPath_of_nothing_is_mountDir_witness :
  ∃ b w',
    initFunc plainDescriptor (boot (fresh [])) = (inr b, w') ∧
    LocalPath b "" = plainDir ∧ LocalPath b "." = plainDir.
Proof.
  eexists _, _. split; [vm_compute; reflexivity|].
  exact (@LocalPath_of_nothing_is_mountDir Machine imports plainDescriptor
           (boot (fresh [])) _ _ eq_refl).
Defined.

Lemma LocalPath_is_clean_witness :
  ∃ b w',
    initFunc plainDescriptor (boot (fresh [])) = (inr b, w') ∧
    filepath.Clean (LocalPath b "a/../b//c/") = LocalPath b "a/../b//c/" ∧
    filepath.IsRooted (LocalPath b "a/../b//c/") = filepath.IsRooted (mountDir b).
Proof.
  eexists _, _. split; [vm_compute; reflexivity|].
  exact (@LocalPath_is_clean Machine imports plainDescriptor
           (boot (fresh [])) _ _ "a/../b//c/" eq_refl).
Defined.

Lemma LocalPath_without_dotdot_stays_below_witness :
  ∃ b w',
    initFunc plainDescriptor (boot (fresh [])) = (inr b, w') ∧
    filepath.Within (mountDir b) (LocalPath b "volumes/./vol-1//backup.cfg").
Proof.
  eexists _, _. split; [vm_compute; reflexivity|].
  exact (@LocalPath_without_dotdot_stays_below Machine imports plainDescriptor
           (boot (fresh [])) _ _ "volumes/./vol-1//backup.cfg" eq_refl
           ltac:(discriminate) ltac:(discriminate)
           ltac:(vm_compute; repeat first [constructor; [discriminate|] | constructor])).
Defined.

Lemma LocalPath_composes_witness :
  ∃ b w',
    initFunc plainDescriptor (boot (fresh [])) = (inr b, w') ∧
    LocalPath b ("volumes/vol-1" +:+ "/" +:+ "../vol-2") =
    filepath.Join [LocalPath b "volumes/vol-1"; "../vol-2"].
Proof.
  eexists _, _. split; [vm_compute; reflexivity|].
  exact (@LocalPath_composes Machine imports plainDescriptor
           (boot (fresh [])) _ _ "volumes/vol-1" "../vol-2" eq_refl).
Defined.

Lemma LocalPath_ignores_outer_slashes_witness :
  ∃ b w',
    initFunc plainDescriptor (boot (fresh [])) = (inr b, w') ∧
    LocalPath b ("/" +:+ "etc/passwd") = LocalPath b "etc/passwd" ∧
    LocalPath b ("etc/passwd" +:+ "/") = LocalPath b "etc/passwd".
Proof.
  eexists _, _. split; [vm_compute; reflexivity|].
  exact (@LocalPath_ignores_outer_slashes Machine imports plainDescriptor
           (boot (fresh [])) _ _ "etc/passwd" eq_refl).
Defined.

Lemma mountDir_below_root_witness :
  ∃ b w',
    initFunc plainDescriptor (boot (fresh [])) = (inr b, w') ∧
    filepath.Within (filepath.Clean "/var/lib/longhorn-backupstore-mounts") (mountDir b).
Proof.
  eexists _, _. split; [vm_compute; reflexivity|].
  exact (@mountDir_below_root Machine imports plainDescriptor plainURL
           (boot (fresh [])) _ _ eq_refl eq_refl
           ltac:(vm_compute; discriminate) ltac:(vm_compute; discriminate)
           ltac:(vm_compute; repeat first [constructor; [discriminate|] | constructor])).
Defined.

(** A remote path with ".." elements takes the mount directory out of the
    root mount directory. *)
Example mountDir_leaves_root :
  mountDir (resolve {| Scheme := "nfs"; Host := "fileserver";
                       Path := "/../../../../etc"; RawQuery := "" |}) = "/etc".
Proof. reflexivity. Qed.

End more_scenarios.
